(** * Frogger-AVR: the game engine of game.c, timer0.c and FroggerProject.c

    The C program keeps its state in file-level variables.  Each
    translation unit becomes a module below whose record holds those
    variables, and every C function becomes a computation in a small
    state monad over that record.  Fixed-width integers are [Z] with the
    conversion written out where the C code stores into a narrower type
    (avr-gcc: two's complement, [int] is 16 bits wide).

    The LED matrix, the seven-segment display and the terminal are only
    written, never read, by the functions modelled here; calls such as
    [redraw_frog] or [ledmatrix_update_row] are therefore left out. *)

From Stdlib Require Import ZArith Lia Bool List String Ascii Setoid Morphisms.
From stdpp Require Import base list.
Import ListNotations.

Local Open Scope Z_scope.

(** ** Fixed-width integers *)

Definition uint8 (z : Z) : Z := z mod 2 ^ 8.
Definition uint16 (z : Z) : Z := z mod 2 ^ 16.
Definition uint32 (z : Z) : Z := z mod 2 ^ 32.
Definition int8 (z : Z) : Z := (z + 2 ^ 7) mod 2 ^ 8 - 2 ^ 7.

(** Equality as [uint32_t]. *)
Inductive same32 (a b : Z) : Prop :=
  | same32_intro : uint32 a = uint32 b -> same32 a b.

(** A C binary literal [0b...], written as the string of its digits. *)
Fixpoint bin_acc (digits : string) (acc : Z) : Z :=
  match digits with
  | EmptyString => acc
  | String c rest =>
      bin_acc rest (2 * acc + (if Ascii.eqb c "1"%char then 1 else 0))
  end.
Definition bin (digits : string) : Z := bin_acc digits 0.

(** [a[i]] for a C array held as a list. *)
Definition idx (a : list Z) (i : Z) : Z := default 0 (a !! Z.to_nat i).

(** [a[i] = v] *)
Definition upd (a : list Z) (i : Z) (v : Z) : list Z := <[Z.to_nat i := v]> a.

(** Number of 0 bits among the low [n] bits of [z]. *)
Fixpoint zero_bits (n : nat) (z : Z) : nat :=
  match n with
  | O => O
  | S k => ((if Z.testbit z (Z.of_nat k) then 0 else 1) + zero_bits k z)%nat
  end.

(** ** A state monad for the file-level variables *)

Section StateMonad.
Context {S : Type}.

Definition M (A : Type) : Type := S -> A * S.

Definition ret {A} (a : A) : M A := fun s => (a, s).
Definition bind {A B} (m : M A) (k : A -> M B) : M B :=
  fun s => let '(a, s') := m s in k a s'.
Definition gets {A} (f : S -> A) : M A := fun s => (f s, s).
Definition modify (f : S -> S) : M unit := fun s => (tt, f s).
Definition when (b : bool) (m : M unit) : M unit := if b then m else ret tt.

Definition exec {A} (m : M A) (s : S) : S := snd (m s).
Definition eval {A} (m : M A) (s : S) : A := fst (m s).
End StateMonad.

Arguments M : clear implicits.

Notation "x <- m ;; k" := (bind m (fun x => k))
  (at level 100, m at next level, right associativity).
Notation "m ;; k" := (bind m (fun _ => k))
  (at level 100, right associativity).

(** [n] runs of [m], one after the other. *)
Fixpoint repeat_m {S : Type} (n : nat) (m : M S unit) : M S unit :=
  match n with
  | O => ret tt
  | S k => m ;; repeat_m k m
  end.

(** [m] keeps the state property [P]. *)
Definition preserves {S A : Type} (P : S -> Prop) (m : M S A) : Prop :=
  forall s, P s -> P (exec m s).

(** ** game.c *)

Module Game.

(** The static variables of game.c, the life LEDs on [PORTA], and the
    score accumulator that [add_to_score] updates. *)
Record game : Type := mk_game {
  frog_row : Z;            (* int8_t *)
  frog_column : Z;         (* int8_t *)
  frog_dead : Z;           (* uint8_t *)
  frog_lives : Z;          (* uint8_t *)
  decrement : Z;           (* uint8_t *)
  lane_data : list Z;      (* uint64_t [3] *)
  log_data : list Z;       (* uint32_t [2] *)
  lane_position : list Z;  (* int8_t [3] *)
  log_position : list Z;   (* int8_t [2] *)
  riverbank : Z;           (* uint16_t *)
  riverbank_status : Z;    (* uint16_t *)
  PORTA : Z;
  score : Z
}.

Definition set_frog_row (v : Z) (g : game) : game :=
  mk_game v (frog_column g) (frog_dead g) (frog_lives g) (decrement g)
    (lane_data g) (log_data g) (lane_position g) (log_position g)
    (riverbank g) (riverbank_status g) (PORTA g) (score g).
Definition set_frog_column (v : Z) (g : game) : game :=
  mk_game (frog_row g) v (frog_dead g) (frog_lives g) (decrement g)
    (lane_data g) (log_data g) (lane_position g) (log_position g)
    (riverbank g) (riverbank_status g) (PORTA g) (score g).
Definition set_frog_dead (v : Z) (g : game) : game :=
  mk_game (frog_row g) (frog_column g) v (frog_lives g) (decrement g)
    (lane_data g) (log_data g) (lane_position g) (log_position g)
    (riverbank g) (riverbank_status g) (PORTA g) (score g).
Definition set_frog_lives (v : Z) (g : game) : game :=
  mk_game (frog_row g) (frog_column g) (frog_dead g) v (decrement g)
    (lane_data g) (log_data g) (lane_position g) (log_position g)
    (riverbank g) (riverbank_status g) (PORTA g) (score g).
Definition set_decrement (v : Z) (g : game) : game :=
  mk_game (frog_row g) (frog_column g) (frog_dead g) (frog_lives g) v
    (lane_data g) (log_data g) (lane_position g) (log_position g)
    (riverbank g) (riverbank_status g) (PORTA g) (score g).
Definition set_lane_position (v : list Z) (g : game) : game :=
  mk_game (frog_row g) (frog_column g) (frog_dead g) (frog_lives g) (decrement g)
    (lane_data g) (log_data g) v (log_position g)
    (riverbank g) (riverbank_status g) (PORTA g) (score g).
Definition set_log_position (v : list Z) (g : game) : game :=
  mk_game (frog_row g) (frog_column g) (frog_dead g) (frog_lives g) (decrement g)
    (lane_data g) (log_data g) (lane_position g) v
    (riverbank g) (riverbank_status g) (PORTA g) (score g).
Definition set_riverbank (v : Z) (g : game) : game :=
  mk_game (frog_row g) (frog_column g) (frog_dead g) (frog_lives g) (decrement g)
    (lane_data g) (log_data g) (lane_position g) (log_position g)
    v (riverbank_status g) (PORTA g) (score g).
Definition set_riverbank_status (v : Z) (g : game) : game :=
  mk_game (frog_row g) (frog_column g) (frog_dead g) (frog_lives g) (decrement g)
    (lane_data g) (log_data g) (lane_position g) (log_position g)
    (riverbank g) v (PORTA g) (score g).
Definition set_PORTA (v : Z) (g : game) : game :=
  mk_game (frog_row g) (frog_column g) (frog_dead g) (frog_lives g) (decrement g)
    (lane_data g) (log_data g) (lane_position g) (log_position g)
    (riverbank g) (riverbank_status g) v (score g).
Definition set_score (v : Z) (g : game) : game :=
  mk_game (frog_row g) (frog_column g) (frog_dead g) (frog_lives g) (decrement g)
    (lane_data g) (log_data g) (lane_position g) (log_position g)
    (riverbank g) (riverbank_status g) (PORTA g) v.

(** *** Constants *)

Definition LANE_DATA_WIDTH : Z := 64.
Definition LOG_DATA_WIDTH : Z := 32.

Definition START_ROW : Z := 0.
Definition FIRST_VEHICLE_ROW : Z := 1.
Definition HALFWAY_ROW : Z := 4.
Definition FIRST_RIVER_ROW : Z := 5.
Definition RIVERBANK_ROW : Z := 7.

Definition RIVERBANK : Z := Eval cbv in bin "1101110111011101".

(** The initialisers of [lane_data] and [log_data]. *)
Definition lane_data_init : list Z :=
  Eval cbv in
  [ bin "1100001100011000110000011001100011000011000110001100000110011000";
    bin "0011100000111000011100000111000011100001110001110000111000011100";
    bin "0000111100001111000011110000111100001111000001111100001111000111" ].

Definition log_data_init : list Z :=
  Eval cbv in
  [ bin "11110001100111000111100011111000";
    bin "11100110111101100001110110011100" ].

(** The variables as the C start-up code leaves them: initialised arrays
    as written, everything else zero. *)
Definition power_on : game :=
  mk_game 0 0 0 0 0 lane_data_init log_data_init [0; 0; 0] [0; 0] 0 0 0 0.

Abbreviation G := (M game).

(** *** The collision oracle *)

Definition will_frog_die_at_position (row column : Z) : G Z :=
  if (column <? 0) || (column >? 15) then ret 1
  else
    match row with
    | 0 | 4 => ret 0
    | 1 | 2 | 3 =>
        let lane := uint8 (row - 1) in
        pos <- gets lane_position ;;
        let bit_position := uint8 (idx pos lane + column) in
        let bit_position :=
          if bit_position >=? LANE_DATA_WIDTH
          then uint8 (bit_position - LANE_DATA_WIDTH) else bit_position in
        data <- gets lane_data ;;
        ret (Z.land (Z.shiftr (idx data lane) bit_position) 1)
    | 5 | 6 =>
        let channel := uint8 (row - 5) in
        pos <- gets log_position ;;
        let bit_position := uint8 (idx pos channel + column) in
        let bit_position :=
          if bit_position >=? LOG_DATA_WIDTH
          then uint8 (bit_position - LOG_DATA_WIDTH) else bit_position in
        data <- gets log_data ;;
        ret (if Z.land (Z.shiftr (idx data channel) bit_position) 1 =? 0
             then 1 else 0)
    | 7 =>
        status <- gets riverbank_status ;;
        ret (Z.land (Z.shiftr status column) 1)
    | _ => ret 1
    end.

(** *** Lives *)

Definition decrement_lives : G unit :=
  lives <- gets frog_lives ;;
  if lives =? 4 then
    modify (set_frog_lives (uint8 (lives - 1))) ;;
    modify (set_PORTA 7)
  else if lives =? 3 then
    modify (set_frog_lives (uint8 (lives - 1))) ;;
    modify (set_PORTA 3)
  else if lives =? 2 then
    modify (set_frog_lives (uint8 (lives - 1))) ;;
    modify (set_PORTA 1)
  else
    modify (set_frog_lives (uint8 (lives - 1))) ;;
    modify (set_frog_dead 1) ;;
    modify (set_PORTA 0).

Definition increment_lives : G unit :=
  lives <- gets frog_lives ;;
  if lives =? 3 then
    modify (set_frog_lives (uint8 (lives + 1))) ;;
    modify (set_PORTA 15)
  else if lives =? 2 then
    modify (set_frog_lives (uint8 (lives + 1))) ;;
    modify (set_PORTA 7)
  else if lives =? 1 then
    modify (set_frog_lives (uint8 (lives + 1))) ;;
    modify (set_PORTA 3)
  else ret tt.

Definition init_led : G unit := modify (set_PORTA 7).

Definition is_frog_dead : G Z := gets frog_dead.
Definition num_frog_lives : G Z := gets frog_lives.
Definition is_decremented : G Z := gets decrement.
Definition is_riverbank_full : G Z :=
  status <- gets riverbank_status ;;
  ret (if status =? 0xFFFF then 1 else 0).
Definition frog_has_reached_riverbank : G Z :=
  row <- gets frog_row ;;
  ret (if row =? RIVERBANK_ROW then 1 else 0).

(** Modelled from the spec: score.c, which defines [add_to_score], is
    not among the sources.  The spec (4.3, reward) names its role: a
    score accumulator to which the awarded points are added. *)
Definition add_to_score (value : Z) : G unit :=
  modify (fun g => set_score (score g + value) g).

(** *** Initialisation *)

Definition put_frog_in_start_position : G unit :=
  modify (set_frog_row 0) ;;
  modify (set_frog_column 7) ;;
  modify (set_frog_dead 0).

Definition initialise_game : G unit :=
  modify (set_lane_position [0; 0; 0]) ;;
  modify (set_log_position [0; 0]) ;;
  modify (set_riverbank RIVERBANK) ;;
  modify (set_riverbank_status RIVERBANK) ;;
  modify (set_frog_lives 3) ;;
  init_led ;;
  put_frog_in_start_position.

(** The start offsets of lanes and logs, chosen by the level. *)
Definition reset_positions (level : Z) : G unit :=
  if level mod 2 =? 0 then
    modify (set_lane_position [1; 1; 1]) ;;
    modify (set_log_position [0; 0])
  else if level mod 3 =? 0 then
    modify (set_lane_position [0; 0; 0]) ;;
    modify (set_log_position [1; 1])
  else
    modify (set_lane_position [0; 0; 0]) ;;
    modify (set_log_position [0; 0]).

Definition initialise_life (level : Z) : G unit :=
  reset_positions level ;;
  modify (set_decrement 0) ;;
  put_frog_in_start_position.

Definition riverbank_by_level (level : Z) : Z :=
  if level mod 2 =? 0 then
    (* Five holes in Riverbank *)
    bin "1101010111011101"
  else if level mod 3 =? 0 then
    (* Six holes in Riverbank *)
    bin "1101010101011101"
  else
    (* Standard 4 holes in Riverbank *)
    bin "1101110111011101".

Definition initialise_level (level : Z) : G unit :=
  reset_positions level ;;
  increment_lives ;;
  modify (set_riverbank (riverbank_by_level level)) ;;
  bank <- gets riverbank ;;
  modify (set_riverbank_status bank) ;;
  put_frog_in_start_position.

(** *** Moves *)

(** The tail shared by the four moves: a frog that has ended up safely
    in row 7 is added to [riverbank_status]. *)
Definition record_arrival : G unit :=
  dead <- gets frog_dead ;;
  dcr <- gets decrement ;;
  row <- gets frog_row ;;
  when ((dead =? 0) && (dcr =? 0) && (row =? RIVERBANK_ROW))
    (col <- gets frog_column ;;
     status <- gets riverbank_status ;;
     modify (set_riverbank_status (uint16 (Z.lor status (Z.shiftl 1 col))))).

Definition move_frog_forward : G unit :=
  row <- gets frog_row ;;
  col <- gets frog_column ;;
  d <- will_frog_die_at_position (int8 (row + 1)) col ;;
  modify (set_decrement d) ;;
  when (negb (d =? 0)) decrement_lives ;;
  modify (set_frog_row (int8 (row + 1))) ;;
  row' <- gets frog_row ;;
  (if row' =? 7 then add_to_score 10 else add_to_score 1) ;;
  record_arrival.

Definition move_frog_backward : G unit :=
  row <- gets frog_row ;;
  col <- gets frog_column ;;
  d <- will_frog_die_at_position (int8 (row - 1)) col ;;
  modify (set_decrement d) ;;
  when (negb (d =? 0)) decrement_lives ;;
  modify (set_frog_row (int8 (row - 1))) ;;
  record_arrival.

Definition move_frog_to_left : G unit :=
  row <- gets frog_row ;;
  col <- gets frog_column ;;
  d <- will_frog_die_at_position row (int8 (col - 1)) ;;
  modify (set_decrement d) ;;
  when (negb (d =? 0)) decrement_lives ;;
  modify (set_frog_column (int8 (col - 1))) ;;
  record_arrival.

Definition move_frog_to_right : G unit :=
  row <- gets frog_row ;;
  col <- gets frog_column ;;
  d <- will_frog_die_at_position row (int8 (col + 1)) ;;
  modify (set_decrement d) ;;
  when (negb (d =? 0)) decrement_lives ;;
  modify (set_frog_column (int8 (col + 1))) ;;
  record_arrival.

(** *** Scrolling *)

(** The new offset of a lane or channel of [width] bits: one step
    against [direction], wrapped at both ends. *)
Definition scrolled (width position direction : Z) : Z :=
  let p := int8 (position - direction) in
  if p <? 0 then width - 1
  else if p >=? width then 0
  else p.

(** [lane] is 0 to 2. *)
Definition scroll_vehicle_lane (lane direction : Z) : G unit :=
  row <- gets frog_row ;;
  let frog_is_in_this_row := row =? lane + FIRST_VEHICLE_ROW in
  pos <- gets lane_position ;;
  modify (set_lane_position
            (upd pos lane (scrolled LANE_DATA_WIDTH (idx pos lane) direction))) ;;
  when frog_is_in_this_row
    (col <- gets frog_column ;;
     d <- will_frog_die_at_position row col ;;
     modify (set_decrement d) ;;
     when (negb (d =? 0)) decrement_lives).

(** [channel] is 0 or 1. *)
Definition scroll_river_channel (channel direction : Z) : G unit :=
  row <- gets frog_row ;;
  let frog_is_in_this_row := row =? channel + FIRST_RIVER_ROW in
  when frog_is_in_this_row
    (col <- gets frog_column ;;
     if (direction =? 1) && (col =? 15) then decrement_lives
     else if (direction =? -1) && (col =? 0) then decrement_lives
     else modify (set_frog_column (int8 (col + direction)))) ;;
  pos <- gets log_position ;;
  modify (set_log_position
            (upd pos channel (scrolled LOG_DATA_WIDTH (idx pos channel) direction))).

(** *** Notions used in the statements *)

(** Every lane offset is in 0..63 and every channel offset in 0..31. *)
Definition offsets_in_range (g : game) : Prop :=
  Forall (fun p => 0 <= p < LANE_DATA_WIDTH) (lane_position g) /\
  Forall (fun p => 0 <= p < LOG_DATA_WIDTH) (log_position g).

(** The occupancy model is intact: offsets in range, bit patterns as
    initialised. *)
Definition occupancy_ok (g : game) : Prop :=
  offsets_in_range g /\
  lane_data g = lane_data_init /\ log_data g = log_data_init.

(** The oracle's answer in state [g]. *)
Definition oracle_result (r c : Z) (g : game) : Z :=
  eval (will_frog_die_at_position r c) g.

(** The life counter is between 0 and 4, and it is 0 exactly when the
    frog is dead. *)
Definition lives_invariant (g : game) : Prop :=
  0 <= frog_lives g <= 4 /\ (frog_lives g = 0 <-> frog_dead g <> 0).

(** The rotation proper: the statements of the scroll functions that
    move the offset. *)
Definition rotate_lane (lane direction : Z) (g : game) : game :=
  set_lane_position
    (upd (lane_position g) lane
       (scrolled LANE_DATA_WIDTH (idx (lane_position g) lane) direction)) g.

Definition rotate_channel (channel direction : Z) (g : game) : game :=
  set_log_position
    (upd (log_position g) channel
       (scrolled LOG_DATA_WIDTH (idx (log_position g) channel) direction)) g.

(** What every move does with the oracle's answer for the cell it looks
    at: store it in [decrement] and take a life if it is fatal. *)
Definition death_handling (row column : Z) : G unit :=
  d <- will_frog_die_at_position row column ;;
  modify (set_decrement d) ;;
  when (negb (d =? 0)) decrement_lives.

(** The state of a new game after one bonus life: 4 lives, frog alive. *)
Definition four_lives : game :=
  exec increment_lives (exec initialise_game power_on).

(** A frog on a log in row 5 of a new game. *)
Definition frog_on_log : game := set_frog_row 5 (exec initialise_game power_on).

(** *** What is drawn *)

(** The colour constants of pixel_colour.h, which is not among the
    sources: they are taken as given. *)
Record pixel_colours : Type := mk_pixel_colours {
  COLOUR_BLACK : Z;
  COLOUR_RED : Z;
  COLOUR_GREEN : Z;
  COLOUR_YELLOW : Z;
  COLOUR_ORANGE : Z;
  COLOUR_LIGHT_YELLOW : Z;
  COLOUR_LIGHT_GREEN : Z
}.

Definition COLOUR_FROG (pc : pixel_colours) : Z := COLOUR_GREEN pc.
Definition COLOUR_DEAD_FROG (pc : pixel_colours) : Z := COLOUR_LIGHT_YELLOW pc.
Definition COLOUR_EDGES (pc : pixel_colours) : Z := COLOUR_LIGHT_GREEN pc.
Definition COLOUR_WATER (pc : pixel_colours) : Z := COLOUR_BLACK pc.
Definition COLOUR_ROAD (pc : pixel_colours) : Z := COLOUR_BLACK pc.
Definition COLOUR_LOGS (pc : pixel_colours) : Z := COLOUR_ORANGE pc.

(** The loop of [redraw_traffic_lane] and of [redraw_river_channel]:
    [n] pixels from [bit_position] on, which goes back to 0 when it
    reaches [width]. *)
Fixpoint row_pixels (n : nat) (width data bit_position on off : Z) : list Z :=
  match n with
  | O => []
  | S k =>
      (if negb (Z.land (Z.shiftr data bit_position) 1 =? 0) then on else off)
      :: row_pixels k width data
           (let b := uint8 (bit_position + 1) in
            if b >=? width then 0 else b)
           on off
  end.

(** The redraw functions are modelled by the row data they hand to
    [ledmatrix_update_row].  [vehicle_colours] is the array of that
    name. *)
Definition redraw_traffic_lane (pc : pixel_colours) (vehicle_colours : list Z)
    (lane : Z) : G (list Z) :=
  pos <- gets lane_position ;;
  data <- gets lane_data ;;
  ret (row_pixels 16 LANE_DATA_WIDTH (idx data lane) (uint8 (idx pos lane))
         (idx vehicle_colours lane) (COLOUR_ROAD pc)).

Definition redraw_river_channel (pc : pixel_colours) (channel : Z) : G (list Z) :=
  pos <- gets log_position ;;
  data <- gets log_data ;;
  ret (row_pixels 16 LOG_DATA_WIDTH (idx data channel) (uint8 (idx pos channel))
         (COLOUR_LOGS pc) (COLOUR_WATER pc)).

Definition redraw_riverbank (pc : pixel_colours) : G (list Z) :=
  bank <- gets riverbank ;;
  status <- gets riverbank_status ;;
  ret (map (fun i =>
              if negb (Z.land (Z.shiftr bank i) 1 =? 0) then COLOUR_EDGES pc
              else if negb (Z.land (Z.shiftr status i) 1 =? 0) then COLOUR_FROG pc
              else 0)
         (seqZ 0 16)).

Definition redraw_roadside (pc : pixel_colours) : G (list Z) :=
  ret (map (fun _ => COLOUR_EDGES pc) (seqZ 0 16)).

(** [redraw_frog]: the arguments of its [ledmatrix_update_pixel] call. *)
Definition redraw_frog (pc : pixel_colours) : G (Z * Z * Z) :=
  dead <- gets frog_dead ;;
  dcr <- gets decrement ;;
  col <- gets frog_column ;;
  row <- gets frog_row ;;
  ret (col, row,
       if negb (dead =? 0) then COLOUR_DEAD_FROG pc
       else if negb (dcr =? 0) then COLOUR_DEAD_FROG pc
       else COLOUR_FROG pc).

(** *** More notions used in the statements *)

(** Some seven distinct colours, black being 0. *)
Definition palette : pixel_colours := mk_pixel_colours 0 1 2 3 4 5 6.

(** The riverbank masks are 16 bits wide and every edge counts as
    filled. *)
Definition bank_ok (g : game) : Prop :=
  0 <= riverbank g < 2 ^ 16 /\ 0 <= riverbank_status g < 2 ^ 16 /\
  Z.land (riverbank g) (riverbank_status g) = riverbank g.

(** A frog in row 6 below the hole in column 1 of a new game. *)
Definition frog_before_hole : game :=
  set_frog_column 1 (set_frog_row 6 (exec initialise_game power_on)).

(** The life LEDs show one lit LED per life. *)
Definition leds_show_lives (g : game) : Prop :=
  PORTA g = 2 ^ frog_lives g - 1.

End Game.

(** ** timer0.c *)

Module Timer0.

(** The static variables of timer0.c.  [last_digit_shown] and the ports
    of the seven-segment display only steer what the display shows and
    are left out. *)
Record timer : Type := mk_timer {
  clockTicks : Z;         (* volatile uint32_t *)
  countdown_inited : Z;   (* uint8_t *)
  times_up : Z;           (* volatile uint8_t *)
  frog_start_time : Z;    (* volatile uint32_t *)
  start_pause : Z;        (* volatile uint32_t *)
  total_time_paused : Z;  (* volatile uint32_t *)
  paused_time : Z;        (* volatile uint32_t *)
  is_paused : Z           (* uint8_t *)
}.

Definition set_clockTicks (v : Z) (s : timer) : timer :=
  mk_timer v (countdown_inited s) (times_up s) (frog_start_time s) (start_pause s) (total_time_paused s) (paused_time s) (is_paused s).
Definition set_countdown_inited (v : Z) (s : timer) : timer :=
  mk_timer (clockTicks s) v (times_up s) (frog_start_time s) (start_pause s) (total_time_paused s) (paused_time s) (is_paused s).
Definition set_times_up (v : Z) (s : timer) : timer :=
  mk_timer (clockTicks s) (countdown_inited s) v (frog_start_time s) (start_pause s) (total_time_paused s) (paused_time s) (is_paused s).
Definition set_frog_start_time (v : Z) (s : timer) : timer :=
  mk_timer (clockTicks s) (countdown_inited s) (times_up s) v (start_pause s) (total_time_paused s) (paused_time s) (is_paused s).
Definition set_start_pause (v : Z) (s : timer) : timer :=
  mk_timer (clockTicks s) (countdown_inited s) (times_up s) (frog_start_time s) v (total_time_paused s) (paused_time s) (is_paused s).
Definition set_total_time_paused (v : Z) (s : timer) : timer :=
  mk_timer (clockTicks s) (countdown_inited s) (times_up s) (frog_start_time s) (start_pause s) v (paused_time s) (is_paused s).
Definition set_paused_time (v : Z) (s : timer) : timer :=
  mk_timer (clockTicks s) (countdown_inited s) (times_up s) (frog_start_time s) (start_pause s) (total_time_paused s) v (is_paused s).
Definition set_is_paused (v : Z) (s : timer) : timer :=
  mk_timer (clockTicks s) (countdown_inited s) (times_up s) (frog_start_time s) (start_pause s) (total_time_paused s) (paused_time s) v.

Definition TOTAL_TIME : Z := 15000.

Definition power_on : timer := mk_timer 0 0 0 0 0 0 0 0.

Abbreviation T := (M timer).

Definition get_current_time : T Z := gets clockTicks.

Definition amount_time_paused : T Z :=
  p <- gets is_paused ;;
  if negb (p =? 0) then
    total <- gets total_time_paused ;;
    now <- get_current_time ;;
    sp <- gets start_pause ;;
    ret (uint32 (total + uint32 (now - sp)))
  else
    gets total_time_paused.

(** The time left of the frog's countdown as the interrupt handler
    computes it, from the value [paused_time] was last given. *)
Definition time_remaining : T Z :=
  now <- get_current_time ;;
  pt <- gets paused_time ;;
  fs <- gets frog_start_time ;;
  ret (uint32 (TOTAL_TIME - uint32 (uint32 (now - pt) - fs))).

(** The compare-match interrupt, once every millisecond.  Of its
    branches the one that ends the countdown is kept; the others drive
    the seven-segment display. *)
Definition ISR_TIMER0_COMPA : T unit :=
  ticks <- gets clockTicks ;;
  modify (set_clockTicks (uint32 (ticks + 1))) ;;
  p <- amount_time_paused ;;
  modify (set_paused_time p) ;;
  remaining <- time_remaining ;;
  inited <- gets countdown_inited ;;
  when (negb (inited =? 0) && (remaining <=? 0))
    (modify (set_times_up 1) ;;
     modify (set_countdown_inited 0)).

Definition init_countdown : T unit :=
  modify (set_times_up 0) ;;
  modify (set_countdown_inited 1) ;;
  modify (set_total_time_paused 0) ;;
  now <- get_current_time ;;
  modify (set_frog_start_time now).

Definition is_time_up : T Z := gets times_up.

Definition countdown_pause : T unit :=
  p <- gets is_paused ;;
  if p =? 0 then
    now <- get_current_time ;;
    modify (set_start_pause now) ;;
    modify (set_is_paused 1)
  else
    total <- gets total_time_paused ;;
    now <- get_current_time ;;
    sp <- gets start_pause ;;
    modify (set_total_time_paused (uint32 (total + uint32 (now - sp)))) ;;
    modify (set_is_paused 0).

(** *** Notions used in the statements *)

(** The time the frog has had since [init_countdown], pauses taken off:
    what the interrupt handler subtracts from [TOTAL_TIME]. *)
Definition played_time (t : timer) : Z :=
  uint32 (uint32 (clockTicks t - eval amount_time_paused t) - frog_start_time t).

(** What happens to the timer from outside: the interrupt fires, or the
    game asks for a pause or a resume. *)
Inductive timer_event : Type :=
  | TimerTick
  | PauseToggle.

Definition timer_step (e : timer_event) : T unit :=
  match e with
  | TimerTick => ISR_TIMER0_COMPA
  | PauseToggle => countdown_pause
  end.

Fixpoint timer_run (es : list timer_event) : T unit :=
  match es with
  | [] => ret tt
  | e :: rest => timer_step e ;; timer_run rest
  end.

(** The ticks of [es] that fall outside a pause, when the run starts
    paused or not. *)
Fixpoint unpaused_ticks (paused : bool) (es : list timer_event) : Z :=
  match es with
  | [] => 0
  | TimerTick :: rest => (if paused then 0 else 1) + unpaused_ticks paused rest
  | PauseToggle :: rest => unpaused_ticks (negb paused) rest
  end.

(** The countdown is running and has counted [k] ms of play. *)
Definition counting (k : Z) (paused : bool) (t : timer) : Prop :=
  is_paused t = (if paused then 1 else 0) /\
  countdown_inited t = 1 /\ times_up t = 0 /\
  played_time t = k /\ 0 <= k < TOTAL_TIME.

(** The countdown has run out. *)
Definition expired (t : timer) : Prop :=
  times_up t = 1 /\ countdown_inited t = 0.

(** *** The seven-segment display *)

(** What the interrupt handler drives besides the countdown: the two
    ports of the seven-segment display and the digit shown last. *)
Record display : Type := mk_display {
  PORTC : Z;              (* segments *)
  PORTD : Z;              (* bit 2 selects the digit *)
  last_digit_shown : Z    (* volatile uint8_t *)
}.

Definition seven_seg : list Z := [63; 6; 91; 79; 102; 109; 125; 7; 127; 111].

(** [PORTC = seven_seg[i]]; no result when [i] is outside the array. *)
Definition show_digit (i : Z) (last : Z) (portd : Z) : option display :=
  match seven_seg !! Z.to_nat i with
  | Some segments => if i <? 0 then None else Some (mk_display segments portd last)
  | None => None
  end.

(** The branches of the interrupt handler as far as the display goes,
    for the value of [countdown_inited] before the handler changes it
    and the [time_remaining] it has computed. *)
Definition ISR_display (inited time_remaining : Z) (d : display) : option display :=
  let left := uint8 (Z.lor (PORTD d) (Z.shiftl 1 2)) in
  let right := uint8 (Z.land (PORTD d) (Z.lnot (Z.shiftl 1 2))) in
  if negb (inited =? 0) && (time_remaining <=? 0) then
    show_digit 0 (last_digit_shown d) right
  else if negb (inited =? 0) && (last_digit_shown d =? 0) then
    if (time_remaining <? 10000) && (time_remaining >=? 1000) then
      show_digit (time_remaining / 1000) (last_digit_shown d) (PORTD d)
    else if (time_remaining <=? 15000) && (time_remaining >=? 10000) then
      show_digit 1 1 left
    else if (time_remaining <? 1000) && (time_remaining >? 0) then
      Some (mk_display 191 left 1)
    else Some d
  else if negb (inited =? 0) && (last_digit_shown d =? 1) then
    if (time_remaining <=? 15000) && (time_remaining >=? 10000) then
      show_digit ((time_remaining / 1000) mod 10) 0 right
    else if (time_remaining <? 1000) && (time_remaining >? 0) then
      show_digit (time_remaining / 100) 0 right
    else Some d
  else Some d.

End Timer0.

(** ** FroggerProject.c *)

Module Project.

(** The static variables of FroggerProject.c that take part in pausing,
    followed by the locals of [play_game] that outlive one turn of its
    loop. *)
Record project : Type := mk_project {
  time_paused : Z;     (* static uint32_t *)
  begin_pause : Z;     (* static uint32_t *)
  paused : Z;          (* static uint8_t *)
  current_time : Z;    (* uint32_t *)
  last_move_time : Z;  (* uint32_t *)
  road0 : Z;           (* uint8_t *)
  road1 : Z;
  road2 : Z;
  river0 : Z;
  river1 : Z;
  level : Z;           (* uint32_t *)
  speed_up_by : Z      (* uint16_t *)
}.

Definition set_time_paused (v : Z) (s : project) : project :=
  mk_project v (begin_pause s) (paused s) (current_time s) (last_move_time s) (road0 s) (road1 s) (road2 s) (river0 s) (river1 s) (level s) (speed_up_by s).
Definition set_begin_pause (v : Z) (s : project) : project :=
  mk_project (time_paused s) v (paused s) (current_time s) (last_move_time s) (road0 s) (road1 s) (road2 s) (river0 s) (river1 s) (level s) (speed_up_by s).
Definition set_paused (v : Z) (s : project) : project :=
  mk_project (time_paused s) (begin_pause s) v (current_time s) (last_move_time s) (road0 s) (road1 s) (road2 s) (river0 s) (river1 s) (level s) (speed_up_by s).
Definition set_current_time (v : Z) (s : project) : project :=
  mk_project (time_paused s) (begin_pause s) (paused s) v (last_move_time s) (road0 s) (road1 s) (road2 s) (river0 s) (river1 s) (level s) (speed_up_by s).
Definition set_last_move_time (v : Z) (s : project) : project :=
  mk_project (time_paused s) (begin_pause s) (paused s) (current_time s) v (road0 s) (road1 s) (road2 s) (river0 s) (river1 s) (level s) (speed_up_by s).
Definition set_road0 (v : Z) (s : project) : project :=
  mk_project (time_paused s) (begin_pause s) (paused s) (current_time s) (last_move_time s) v (road1 s) (road2 s) (river0 s) (river1 s) (level s) (speed_up_by s).
Definition set_road1 (v : Z) (s : project) : project :=
  mk_project (time_paused s) (begin_pause s) (paused s) (current_time s) (last_move_time s) (road0 s) v (road2 s) (river0 s) (river1 s) (level s) (speed_up_by s).
Definition set_road2 (v : Z) (s : project) : project :=
  mk_project (time_paused s) (begin_pause s) (paused s) (current_time s) (last_move_time s) (road0 s) (road1 s) v (river0 s) (river1 s) (level s) (speed_up_by s).
Definition set_river0 (v : Z) (s : project) : project :=
  mk_project (time_paused s) (begin_pause s) (paused s) (current_time s) (last_move_time s) (road0 s) (road1 s) (road2 s) v (river1 s) (level s) (speed_up_by s).
Definition set_river1 (v : Z) (s : project) : project :=
  mk_project (time_paused s) (begin_pause s) (paused s) (current_time s) (last_move_time s) (road0 s) (road1 s) (road2 s) (river0 s) v (level s) (speed_up_by s).
Definition set_level (v : Z) (s : project) : project :=
  mk_project (time_paused s) (begin_pause s) (paused s) (current_time s) (last_move_time s) (road0 s) (road1 s) (road2 s) (river0 s) (river1 s) v (speed_up_by s).
Definition set_speed_up_by (v : Z) (s : project) : project :=
  mk_project (time_paused s) (begin_pause s) (paused s) (current_time s) (last_move_time s) (road0 s) (road1 s) (road2 s) (river0 s) (river1 s) (level s) v.

(** The whole program state: the three translation units side by side. *)
Record world : Type := mk_world {
  game_of : Game.game;
  timer_of : Timer0.timer;
  project_of : project
}.

Definition set_game_of (v : Game.game) (s : world) : world :=
  mk_world v (timer_of s) (project_of s).
Definition set_timer_of (v : Timer0.timer) (s : world) : world :=
  mk_world (game_of s) v (project_of s).
Definition set_project_of (v : project) (s : world) : world :=
  mk_world (game_of s) (timer_of s) v.

Definition power_on : world :=
  mk_world Game.power_on Timer0.power_on (mk_project 0 0 0 0 0 0 0 0 0 0 0 0).

Abbreviation W := (M world).

(** Calls into game.c and timer0.c, and accesses to this file's own
    variables. *)
Definition in_game {A} (m : Game.G A) : W A :=
  fun w => let '(a, g) := m (game_of w) in (a, set_game_of g w).
Definition in_timer {A} (m : Timer0.T A) : W A :=
  fun w => let '(a, t) := m (timer_of w) in (a, set_timer_of t w).
Definition here {A} (m : M project A) : W A :=
  fun w => let '(a, p) := m (project_of w) in (a, set_project_of p w).

Definition pause_game : W unit :=
  p <- here (gets paused) ;;
  if p =? 1 then
    now <- in_timer Timer0.get_current_time ;;
    bp <- here (gets begin_pause) ;;
    here (modify (set_time_paused (uint32 (now - bp)))) ;;
    here (modify (set_paused 0)) ;;
    in_timer Timer0.countdown_pause
  else
    now <- in_timer Timer0.get_current_time ;;
    here (modify (set_begin_pause now)) ;;
    here (modify (set_paused 1)) ;;
    in_timer Timer0.countdown_pause.

(** [new_game], without the terminal output and the score reset of
    score.c. *)
Definition new_game : W unit :=
  in_game Game.initialise_game ;;
  in_game Game.init_led.

(** *** update_score *)

(** What [update_score] sends to the terminal. *)
Inductive terminal_op : Type :=
  | ClearTerminal
  | MoveCursor (x y : Z)
  | PrintString (s : string)
  | PrintNumber (n : Z).

(** [update_score], for the value that [get_score] of score.c has given
    to the local [int score]. *)
Definition update_score (score : Z) : list terminal_op :=
  [ClearTerminal; MoveCursor 30 2; PrintString "Score:"]
  ++ (if score <? 10 then [MoveCursor 40 2]
      else if (score >? 10) && (score <? 100) then [MoveCursor 39 2]
      else if (score >? 100) && (score <? 1000) then [MoveCursor 38 2]
      else if (score >? 1000) && (score <? 10000) then [MoveCursor 37 2]
      else [])
  ++ [PrintNumber score].

(** *** play_game *)

(** What the input decoding at the top of the loop body hands on: the
    move that a button, a cursor key, a letter or a held button asks
    for, the pause key, or nothing. *)
Inductive request : Type :=
  | NoRequest | Left | Forward | Backward | Right | PauseKey.

(** The statements of [play_game] before its loop. *)
Definition play_game_start : W unit :=
  here (modify (set_road0 0)) ;;
  here (modify (set_road1 0)) ;;
  here (modify (set_road2 0)) ;;
  here (modify (set_river0 0)) ;;
  here (modify (set_river1 0)) ;;
  here (modify (set_level 1)) ;;
  here (modify (set_speed_up_by 0)) ;;
  in_timer Timer0.init_countdown ;;
  now <- in_timer Timer0.get_current_time ;;
  here (modify (set_current_time now)) ;;
  here (modify (set_last_move_time now)).

(** The branch taken when the riverbank is full. *)
Definition level_complete : W unit :=
  lv <- here (gets level) ;;
  here (modify (set_level (uint32 (lv + 1)))) ;;
  lv <- here (gets level) ;;
  in_game (Game.initialise_level lv) ;;
  in_timer Timer0.init_countdown ;;
  su <- here (gets speed_up_by) ;;
  here (modify (set_speed_up_by (uint16 (su + 50)))).

Definition life_and_level_checks : W unit :=
  (up <- in_timer Timer0.is_time_up ;;
   if negb (up =? 0) then
     in_game Game.decrement_lives ;;
     dead <- in_game Game.is_frog_dead ;;
     when (dead =? 0)
       (lv <- here (gets level) ;;
        in_game (Game.initialise_life lv) ;;
        in_timer Timer0.init_countdown)
   else
     dead <- in_game Game.is_frog_dead ;;
     full <- in_game Game.is_riverbank_full ;;
     when ((dead =? 0) && negb (full =? 0)) level_complete) ;;
  dead <- in_game Game.is_frog_dead ;;
  dcr <- in_game Game.is_decremented ;;
  reached <- in_game Game.frog_has_reached_riverbank ;;
  if (dead =? 0) && (dcr =? 0) && negb (reached =? 0) then
    in_game Game.put_frog_in_start_position ;;
    in_timer Timer0.init_countdown
  else if negb (dcr =? 0) && (dead =? 0) then
    lv <- here (gets level) ;;
    in_game (Game.initialise_life lv) ;;
    in_timer Timer0.init_countdown
  else ret tt.

(** The two statements of [life_and_level_checks] one by one: the test
    of the countdown and of the riverbank, and the restart of the frog
    after a landing or a death. *)
Definition time_and_level_check : W unit :=
  up <- in_timer Timer0.is_time_up ;;
  if negb (up =? 0) then
    in_game Game.decrement_lives ;;
    dead <- in_game Game.is_frog_dead ;;
    when (dead =? 0)
      (lv <- here (gets level) ;;
       in_game (Game.initialise_life lv) ;;
       in_timer Timer0.init_countdown)
  else
    dead <- in_game Game.is_frog_dead ;;
    full <- in_game Game.is_riverbank_full ;;
    when ((dead =? 0) && negb (full =? 0)) level_complete.

Definition restart_check : W unit :=
  dead <- in_game Game.is_frog_dead ;;
  dcr <- in_game Game.is_decremented ;;
  reached <- in_game Game.frog_has_reached_riverbank ;;
  if (dead =? 0) && (dcr =? 0) && negb (reached =? 0) then
    in_game Game.put_frog_in_start_position ;;
    in_timer Timer0.init_countdown
  else if negb (dcr =? 0) && (dead =? 0) then
    lv <- here (gets level) ;;
    in_game (Game.initialise_life lv) ;;
    in_timer Timer0.init_countdown
  else ret tt.

Definition process_input (r : request) : W unit :=
  p <- here (gets paused) ;;
  match r with
  | Left => when (p =? 0) (in_game Game.move_frog_to_left)
  | Forward => when (p =? 0) (in_game Game.move_frog_forward)
  | Backward => when (p =? 0) (in_game Game.move_frog_backward)
  | Right => when (p =? 0) (in_game Game.move_frog_to_right)
  | PauseKey => pause_game
  | NoRequest => ret tt
  end.

(** The right-hand side of a trigger test,
    [last_move_time + base - speed_up_by]. *)
Definition trigger_time (last_move base speed_up : Z) : Z :=
  uint32 (uint32 (last_move + base) - speed_up).

(** [!paused && !is_frog_dead() && !flag &&
     current_time - time_paused >= last_move_time + base - speed_up_by] *)
Definition due (flag : project -> Z) (base : Z) : W bool :=
  p <- here (gets paused) ;;
  dead <- in_game Game.is_frog_dead ;;
  f <- here (gets flag) ;;
  ct <- here (gets current_time) ;;
  tp <- here (gets time_paused) ;;
  lm <- here (gets last_move_time) ;;
  su <- here (gets speed_up_by) ;;
  ret ((p =? 0) && (dead =? 0) && (f =? 0)
       && (uint32 (ct - tp) >=? trigger_time lm base su)).

Definition scroll_triggers : W unit :=
  now <- in_timer Timer0.get_current_time ;;
  here (modify (set_current_time now)) ;;
  (d <- due road2 750 ;;
   when d (in_game (Game.scroll_vehicle_lane 2 1) ;;
           here (modify (set_road2 1)))) ;;
  (d <- due river0 850 ;;
   when d (in_game (Game.scroll_river_channel 0 (-1)) ;;
           here (modify (set_river0 1)))) ;;
  (d <- due road0 1000 ;;
   when d (in_game (Game.scroll_vehicle_lane 0 1) ;;
           here (modify (set_road0 1)))) ;;
  (d <- due river1 1200 ;;
   when d (in_game (Game.scroll_river_channel 1 1) ;;
           here (modify (set_river1 1)))) ;;
  (d <- due road1 1300 ;;
   when d (in_game (Game.scroll_vehicle_lane 1 (-1)) ;;
           ct <- here (gets current_time) ;;
           here (modify (set_last_move_time ct)) ;;
           here (modify (set_road0 0)) ;;
           here (modify (set_road1 0)) ;;
           here (modify (set_road2 0)) ;;
           here (modify (set_river0 0)) ;;
           here (modify (set_river1 0)) ;;
           here (modify (set_time_paused 0)))).

(** One turn of the loop of [play_game]; the loop is entered only while
    the frog is alive. *)
Definition play_game_turn (r : request) : W unit :=
  life_and_level_checks ;;
  process_input r ;;
  scroll_triggers.

(** *** Runs of the program *)

(** The program as seen from outside: the timer interrupt fires, or the
    loop of [play_game] takes a turn (if the frog is alive). *)
Inductive event : Type :=
  | Tick
  | Turn (r : request).

Definition step (e : event) : W unit :=
  match e with
  | Tick => in_timer Timer0.ISR_TIMER0_COMPA
  | Turn r =>
      dead <- in_game Game.is_frog_dead ;;
      when (dead =? 0) (play_game_turn r)
  end.

Fixpoint run (es : list event) : W unit :=
  match es with
  | [] => ret tt
  | e :: rest => step e ;; run rest
  end.

(** [n] milliseconds in which the loop turns once per tick on request [r]. *)
Definition during (n : nat) (r : request) : list event :=
  concat (replicate n [Tick; Turn r]).

(** *** Runs used in the statements *)

(** The occupancy model of the game inside a program state is intact. *)
Definition occupancy_ok_in (w : world) : Prop := Game.occupancy_ok (game_of w).

(** The state in which the loop of [play_game] is first entered. *)
Definition fresh_game : world := exec (new_game ;; play_game_start) power_on.

(** Inputs 100 ms apart: two fatal moves forward, then seven moves to
    the left along the start row; then nothing until the 15 s countdown
    runs out, and in the turn that notices it a move to the left. *)
Definition timeout_then_move : list event :=
  during 100 NoRequest ++ [Turn Forward]
  ++ during 100 NoRequest ++ [Turn Forward]
  ++ concat (replicate 7 (during 100 NoRequest ++ [Turn Left]))
  ++ during (Z.to_nat 14300) NoRequest ++ [Tick; Turn Left].

(** 100 ms of play, a pause of 500 ms, 100 ms of play, a pause of
    100 ms, and 50 ms of play: 850 ms on the clock, 250 ms of them
    unpaused. *)
Definition two_pauses : list event :=
  during 100 NoRequest ++ [Turn PauseKey]
  ++ during 500 NoRequest ++ [Turn PauseKey]
  ++ during 100 NoRequest ++ [Turn PauseKey]
  ++ during 100 NoRequest ++ [Turn PauseKey]
  ++ during 50 NoRequest.

(** The same 850 ms with the 600 ms of pause in one piece. *)
Definition one_pause : list event :=
  during 100 NoRequest ++ [Turn PauseKey]
  ++ during 600 NoRequest ++ [Turn PauseKey]
  ++ during 150 NoRequest.

(** The game as first entered, with the pause key pressed once. *)
Definition paused_fresh_game : world := exec pause_game fresh_game.

(** The game as first entered, left alone for the 15 s of the
    countdown. *)
Definition time_ran_out : world :=
  exec (run (replicate (Z.to_nat 15000) Tick)) fresh_game.

(** The pause flag of FroggerProject.c and the one of timer0.c agree. *)
Definition flags_in_sync (w : world) : Prop :=
  paused (project_of w) = Timer0.is_paused (timer_of w) /\
  (paused (project_of w) = 0 \/ paused (project_of w) = 1).

End Project.

(** * Properties *)

(** ** Integer conversions *)

Lemma uint8_small z : 0 <= z < 256 -> uint8 z = z.
Proof. intros H. unfold uint8. apply Z.mod_small. lia. Qed.

Lemma int8_small z : -128 <= z < 128 -> int8 z = z.
Proof.
  intros H. unfold int8. change (2 ^ 7) with 128. change (2 ^ 8) with 256.
  rewrite Z.mod_small; lia.
Qed.

Lemma uint8_range z : 0 <= uint8 z < 256.
Proof. unfold uint8. apply Z.mod_pos_bound. lia. Qed.

(** [(x >> n) & 1] is bit [n] of [x]. *)
Lemma shiftr_land_1 x n :
  0 <= n -> Z.land (Z.shiftr x n) 1 = Z.b2z (Z.testbit x n).
Proof.
  intros Hn. change 1 with (Z.ones 1). rewrite Z.land_ones by lia.
  change (2 ^ 1) with 2. rewrite <- Z.bit0_mod.
  rewrite Z.shiftr_spec by lia. reflexivity.
Qed.

(** The single conditional subtraction of the oracle is a reduction
    modulo [width] for every offset in range and every column on the
    display. *)
Lemma wrap_once width p c :
  (width = 64 \/ width = 32) -> 0 <= p < width -> 0 <= c <= 15 ->
  (if uint8 (p + c) >=? width then uint8 (uint8 (p + c) - width)
   else uint8 (p + c)) = (p + c) mod width.
Proof.
  intros Hw Hp Hc. rewrite (uint8_small (p + c)) by lia.
  destruct (Z.geb_spec (p + c) width) as [Hge | Hlt].
  - rewrite uint8_small by lia.
    apply Z.mod_unique with (q := 1); lia.
  - symmetry. apply Z.mod_small. lia.
Qed.

(** ** Running a sequence *)

Lemma exec_bind_unit {S B : Type} (m : M S unit) (k : M S B) (s : S) :
  exec (m ;; k) s = exec k (exec m s).
Proof. unfold exec, bind. destruct (m s). reflexivity. Qed.

(** ** Properties kept by monadic code *)

Section Preserves.
Context {S : Type} (P : S -> Prop).

Lemma preserves_ret {A} (a : A) : preserves P (ret a).
Proof. intros s H. exact H. Qed.

Lemma preserves_gets {A} (f : S -> A) : preserves P (gets f).
Proof. intros s H. exact H. Qed.

Lemma preserves_modify (f : S -> S) :
  (forall s, P s -> P (f s)) -> preserves P (modify f).
Proof. intros Hf s H. apply Hf. exact H. Qed.

Lemma preserves_bind {A B} (m : M S A) (k : A -> M S B) :
  preserves P m -> (forall a, preserves P (k a)) -> preserves P (bind m k).
Proof.
  intros Hm Hk s H. unfold exec, bind.
  specialize (Hm s H). unfold exec in Hm.
  destruct (m s) as [a s']. apply (Hk a s' Hm).
Qed.

Lemma preserves_when (b : bool) (m : M S unit) :
  preserves P m -> preserves P (when b m).
Proof. intros Hm. destruct b; [exact Hm | apply preserves_ret]. Qed.

End Preserves.

Create HintDb preserves.
#[local] Hint Resolve preserves_ret preserves_gets preserves_when : preserves.

(** Takes a [preserves] goal apart along the structure of the code. *)
Ltac preserve :=
  repeat first
    [ solve [eauto with preserves]
    | match goal with
      | |- preserves _ (if ?b then _ else _) => destruct b
      | |- preserves _ (when _ _) => apply preserves_when
      | |- preserves _ (bind _ _) => apply preserves_bind; [|intros ?]
      end ].

Module GameFacts.
Import Game.

(** ** The state invariant on offsets *)

Lemma idx_Forall (P : Z -> Prop) (a : list Z) (i : Z) :
  P 0 -> Forall P a -> P (idx a i).
Proof.
  intros H0 Ha. unfold idx.
  destruct (a !! Z.to_nat i) as [v|] eqn:E; simpl; [|exact H0].
  eapply Forall_lookup_1; eauto.
Qed.

Lemma lane_offset_range g i :
  offsets_in_range g -> 0 <= idx (lane_position g) i < 64.
Proof.
  intros [H _]. apply (idx_Forall (fun p => 0 <= p < 64)); [lia | exact H].
Qed.

Lemma log_offset_range g i :
  offsets_in_range g -> 0 <= idx (log_position g) i < 32.
Proof.
  intros [_ H]. apply (idx_Forall (fun p => 0 <= p < 32)); [lia | exact H].
Qed.

(** ** The collision oracle *)

(** The oracle only reads. *)
Lemma oracle_reads_only r c g :
  exec (will_frog_die_at_position r c) g = g.
Proof.
  unfold will_frog_die_at_position.
  destruct ((c <? 0) || (c >? 15)); [reflexivity|].
  destruct r as [|p|p]; try reflexivity.
  repeat (destruct p as [p|p|]; try reflexivity).
Qed.

Lemma oracle_out_of_bounds r c g :
  c < 0 \/ c > 15 -> eval (will_frog_die_at_position r c) g = 1.
Proof.
  intros H. unfold will_frog_die_at_position.
  replace ((c <? 0) || (c >? 15)) with true; [reflexivity|].
  symmetry. apply orb_true_iff. destruct H; [left | right]; lia.
Qed.

Lemma oracle_in_bounds r c g :
  0 <= c <= 15 ->
  will_frog_die_at_position r c g =
  match r with
  | 0 | 4 => (0, g)
  | 1 | 2 | 3 =>
      (Z.b2z (Z.testbit (idx (lane_data g) (r - 1))
                (let p := uint8 (idx (lane_position g) (r - 1) + c) in
                 if p >=? 64 then uint8 (p - 64) else p)), g)
  | 5 | 6 =>
      (Z.b2z (negb (Z.testbit (idx (log_data g) (r - 5))
                (let p := uint8 (idx (log_position g) (r - 5) + c) in
                 if p >=? 32 then uint8 (p - 32) else p))), g)
  | 7 => (Z.b2z (Z.testbit (riverbank_status g) c), g)
  | _ => (1, g)
  end.
Proof.
  intros Hc. unfold will_frog_die_at_position.
  replace ((c <? 0) || (c >? 15)) with false
    by (symmetry; apply orb_false_iff; split; lia).
  assert (Hpos : forall w x, 0 <= (let p := uint8 x in
                     if p >=? w then uint8 (p - w) else p)).
  { intros w x. simpl. destruct (_ >=? _); apply uint8_range. }
  destruct r as [|p|p]; try reflexivity.
  repeat (destruct p as [p|p|]; try reflexivity);
    cbv [bind gets ret]; cbn [Z.sub Z.pos_sub Z.add Pos.pred_double];
    rewrite ?shiftr_land_1 by (first [apply Hpos | lia]);
    try reflexivity.
  all: change (uint8 4) with 4; change (uint8 1) with 1; change (uint8 0) with 0;
       change (uint8 2) with 2; unfold LANE_DATA_WIDTH, LOG_DATA_WIDTH;
       rewrite ?shiftr_land_1 by (first [apply Hpos | lia]); try reflexivity.
  all: destruct (Z.testbit _ _); reflexivity.
Qed.

(** C1: for every row [r] and column [c] the collision oracle returns 1
    (fatal) when [c] is outside 0..15; otherwise 0 on rows 0 and 4, the
    vehicle bit of lane [r-1] at index (offset + c) mod 64 on rows 1 to
    3, the negated log bit of channel [r-5] at index (offset + c) mod 32
    on rows 5 and 6, the [riverbank_status] bit of column [c] on row 7,
    and 1 on every other row; the call leaves the state as it was. *)
Theorem C1_collision_oracle (g : game) (r c : Z) :
  offsets_in_range g ->
  let result := eval (will_frog_die_at_position r c) g in
  exec (will_frog_die_at_position r c) g = g /\
  (c < 0 \/ c > 15 -> result = 1) /\
  (0 <= c <= 15 ->
   (r = 0 \/ r = 4 -> result = 0) /\
   (1 <= r <= 3 ->
    result = Z.b2z (Z.testbit (idx (lane_data g) (r - 1))
                      ((idx (lane_position g) (r - 1) + c) mod 64))) /\
   (5 <= r <= 6 ->
    result = Z.b2z (negb (Z.testbit (idx (log_data g) (r - 5))
                            ((idx (log_position g) (r - 5) + c) mod 32)))) /\
   (r = 7 -> result = Z.b2z (Z.testbit (riverbank_status g) c)) /\
   (r < 0 \/ r > 7 -> result = 1)).
Proof.
  intros Hinv result. subst result.
  split; [apply oracle_reads_only|].
  split; [apply oracle_out_of_bounds|].
  intros Hc. unfold eval. rewrite (oracle_in_bounds r c g Hc).
  repeat split.
  - intros [-> | ->]; reflexivity.
  - intros Hr.
    pose proof (lane_offset_range g (r - 1) Hinv) as Hp.
    pose proof (wrap_once 64 _ c (or_introl eq_refl) Hp Hc) as Hw.
    cbv zeta. rewrite Hw.
    assert (r = 1 \/ r = 2 \/ r = 3) as [-> | [-> | ->]] by lia; reflexivity.
  - intros Hr.
    pose proof (log_offset_range g (r - 5) Hinv) as Hp.
    pose proof (wrap_once 32 _ c (or_intror eq_refl) Hp Hc) as Hw.
    cbv zeta. rewrite Hw.
    assert (r = 5 \/ r = 6) as [-> | ->] by lia; reflexivity.
  - intros ->. reflexivity.
  - intros Hr. destruct r as [|p|p]; [lia| |reflexivity].
    destruct p as [[[p|p|]|[p|p|]|]|[[p|p|]|[p|p|]|]|]; try reflexivity; lia.
Qed.

Lemma C1_collision_oracle_witness :
  let g := exec initialise_game power_on in
  offsets_in_range g /\
  eval (will_frog_die_at_position 1 7) g =
  Z.b2z (Z.testbit (idx (lane_data g) 0) ((idx (lane_position g) 0 + 7) mod 64)).
Proof.
  intros g. split.
  - split; repeat constructor; vm_compute; congruence.
  - assert (Hinv : offsets_in_range g)
      by (split; repeat constructor; vm_compute; congruence).
    destruct (C1_collision_oracle g 1 7 Hinv) as (_ & _ & Hin).
    destruct Hin as (_ & Hlane & _); [lia|].
    apply Hlane. lia.
Defined.

(** ** Running the monadic code *)

Lemma oracle_run r c g :
  will_frog_die_at_position r c g = (oracle_result r c g, g).
Proof.
  pose proof (oracle_reads_only r c g) as H. unfold oracle_result, exec, eval in *.
  destruct (will_frog_die_at_position r c g); simpl in *. congruence.
Qed.

(** Symbolic execution: unfold the monad and the record accessors, step
    over oracle calls, split on every test. *)
Ltac run_game :=
  repeat first
    [ progress cbv beta iota zeta delta
        [exec bind ret gets modify when fst snd negb andb orb
         frog_row frog_column frog_dead frog_lives decrement lane_data
         log_data lane_position log_position riverbank riverbank_status
         PORTA score set_frog_row set_frog_column set_frog_dead
         set_frog_lives set_decrement set_lane_position set_log_position
         set_riverbank set_riverbank_status set_PORTA set_score]
    | rewrite oracle_run
    | match goal with
      | |- context [if ?c then _ else _] =>
          lazymatch c with
          | context [if _ then _ else _] => fail
          | _ => destruct c eqn:?
          end
      end ];
  try congruence.

(** ** Lives *)

Lemma decrement_lives_lives g :
  frog_lives (exec decrement_lives g) = uint8 (frog_lives g - 1).
Proof. destruct g. unfold decrement_lives. run_game; reflexivity. Qed.

Lemma decrement_lives_dead g :
  frog_dead (exec decrement_lives g) =
  if (2 <=? frog_lives g) && (frog_lives g <=? 4) then frog_dead g else 1.
Proof.
  destruct g as [r c d l ? ? ? ? ? ? ? ? ?]. unfold decrement_lives.
  cbv beta iota zeta delta
    [exec eval bind ret gets modify fst snd frog_dead frog_lives
     set_frog_lives set_frog_dead set_PORTA].
  destruct (Z.eqb_spec l 4) as [-> | H4]; [reflexivity|].
  destruct (Z.eqb_spec l 3) as [-> | H3]; [reflexivity|].
  destruct (Z.eqb_spec l 2) as [-> | H2]; [reflexivity|].
  cbv beta iota.
  destruct (Z.leb_spec 2 l), (Z.leb_spec l 4); simpl; try reflexivity; lia.
Qed.

(** What a life decrement leaves alone. *)
Lemma decrement_lives_frame g :
  let g' := exec decrement_lives g in
  frog_row g' = frog_row g /\ frog_column g' = frog_column g /\
  decrement g' = decrement g /\
  lane_data g' = lane_data g /\ log_data g' = log_data g /\
  lane_position g' = lane_position g /\ log_position g' = log_position g /\
  riverbank g' = riverbank g /\ riverbank_status g' = riverbank_status g /\
  score g' = score g.
Proof.
  destruct g. unfold decrement_lives. run_game; repeat split; reflexivity.
Qed.

Lemma increment_lives_lives g :
  frog_lives (exec increment_lives g) =
  if (1 <=? frog_lives g) && (frog_lives g <=? 3)
  then frog_lives g + 1 else frog_lives g.
Proof.
  destruct g as [r c d l ? ? ? ? ? ? ? ? ?]. unfold increment_lives.
  cbv beta iota zeta delta
    [exec eval bind ret gets modify fst snd frog_lives set_frog_lives set_PORTA].
  destruct (Z.eqb_spec l 3) as [-> | H3]; [reflexivity|].
  destruct (Z.eqb_spec l 2) as [-> | H2]; [reflexivity|].
  destruct (Z.eqb_spec l 1) as [-> | H1]; [reflexivity|].
  cbv beta iota.
  destruct (Z.leb_spec 1 l), (Z.leb_spec l 3); simpl; try reflexivity; lia.
Qed.

Lemma increment_lives_dead g :
  frog_dead (exec increment_lives g) = frog_dead g.
Proof. destruct g. unfold increment_lives. run_game; reflexivity. Qed.

Lemma initialise_game_lives_invariant g :
  lives_invariant (exec initialise_game g).
Proof.
  destruct g.
  unfold lives_invariant, initialise_game, init_led, put_frog_in_start_position.
  run_game. split; [lia | split; intros H; [discriminate H | congruence]].
Qed.

(** A life decrement taken while the frog is alive keeps the invariant. *)
Lemma decrement_lives_lives_invariant g :
  lives_invariant g -> frog_dead g = 0 ->
  lives_invariant (exec decrement_lives g).
Proof.
  intros [Hrange Hiff] Halive. unfold lives_invariant.
  rewrite decrement_lives_lives, decrement_lives_dead.
  assert (Hpos : 1 <= frog_lives g <= 4).
  { destruct (Z.eq_dec (frog_lives g) 0) as [H0 | H0]; [|lia].
    apply Hiff in H0. congruence. }
  rewrite uint8_small by lia.
  destruct (Z.leb_spec 2 (frog_lives g)), (Z.leb_spec (frog_lives g) 4);
    simpl; lia.
Qed.

(** The bonus life never takes the counter above 4. *)
Lemma increment_lives_lives_invariant g :
  lives_invariant g -> lives_invariant (exec increment_lives g).
Proof.
  intros [Hrange Hiff]. unfold lives_invariant.
  rewrite increment_lives_lives, increment_lives_dead.
  destruct (Z.leb_spec 1 (frog_lives g)), (Z.leb_spec (frog_lives g) 3);
    simpl; try (split; [lia | exact Hiff]).
  split; [lia|]. split; [lia|]. intros Hd. apply Hiff in Hd. lia.
Qed.

(** The life sequence from 4 lives, for every state. *)
Lemma life_sequence g :
  frog_lives g = 4 -> frog_dead g = 0 ->
  let after n := exec (repeat_m n decrement_lives) g in
  (frog_lives (after 1%nat) = 3 /\ frog_dead (after 1%nat) = 0) /\
  (frog_lives (after 2%nat) = 2 /\ frog_dead (after 2%nat) = 0) /\
  (frog_lives (after 3%nat) = 1 /\ frog_dead (after 3%nat) = 0) /\
  (frog_lives (after 4%nat) = 0 /\ frog_dead (after 4%nat) = 1) /\
  frog_lives (after 5%nat) = 255.
Proof.
  destruct g as [r c d l ? ? ? ? ? ? ? ? ?]. simpl. intros -> ->.
  vm_compute. repeat split; reflexivity.
Qed.

(** C2: from 4 lives the life decrements give 3, 2, 1, 0 and the fourth
    one marks the frog dead; a fifth one is not a no-op: the 8-bit
    counter goes from 0 to 255.  A fatal move forward made by the dead
    frog does the same, moves the frog and adds to the score. *)
Theorem C2_fifth_decrement_wraps :
  let after n := exec (repeat_m n decrement_lives) four_lives in
  let moved := exec move_frog_forward (after 4%nat) in
  (frog_lives four_lives = 4 /\ frog_dead four_lives = 0) /\
  map (fun n => (frog_lives (after n), frog_dead (after n)))
      [1; 2; 3; 4]%nat = [(3, 0); (2, 0); (1, 0); (0, 1)] /\
  (frog_lives (after 5%nat) = 255 /\ after 5%nat <> after 4%nat) /\
  (decrement moved = 1 /\ frog_lives moved = 255 /\
   frog_row moved = frog_row (after 4%nat) + 1 /\
   score moved = score (after 4%nat) + 1).
Proof.
  cbv zeta. repeat split; try (vm_compute; reflexivity).
  vm_compute. intros H. discriminate H.
Qed.

(** ** Moves *)

Lemma exec_seq {S : Type} (m k : M S unit) (s : S) :
  exec (m ;; k) s = exec k (exec m s).
Proof. unfold exec, bind. destruct (m s). reflexivity. Qed.

Lemma move_frog_to_left_column g :
  frog_column (exec move_frog_to_left g) = int8 (frog_column g - 1).
Proof.
  destruct g. unfold move_frog_to_left, record_arrival, decrement_lives.
  run_game; reflexivity.
Qed.

Lemma move_frog_to_right_column g :
  frog_column (exec move_frog_to_right g) = int8 (frog_column g + 1).
Proof.
  destruct g. unfold move_frog_to_right, record_arrival, decrement_lives.
  run_game; reflexivity.
Qed.

Lemma move_frog_to_left_decrement g :
  decrement (exec move_frog_to_left g) =
  oracle_result (frog_row g) (int8 (frog_column g - 1)) g.
Proof.
  destruct g. unfold move_frog_to_left, record_arrival, decrement_lives.
  run_game; reflexivity.
Qed.

Lemma move_frog_to_right_decrement g :
  decrement (exec move_frog_to_right g) =
  oracle_result (frog_row g) (int8 (frog_column g + 1)) g.
Proof.
  destruct g. unfold move_frog_to_right, record_arrival, decrement_lives.
  run_game; reflexivity.
Qed.

(** A move to the left from column 0, or to the right from column 15,
    is fatal and stores a column off the display. *)
Lemma boundary_move_column g :
  (frog_column g = 0 ->
   decrement (exec move_frog_to_left g) = 1 /\
   frog_column (exec move_frog_to_left g) = -1) /\
  (frog_column g = 15 ->
   decrement (exec move_frog_to_right g) = 1 /\
   frog_column (exec move_frog_to_right g) = 16).
Proof.
  split; intros Hc.
  - rewrite move_frog_to_left_decrement, move_frog_to_left_column, Hc.
    split; [|reflexivity]. apply oracle_out_of_bounds. left. reflexivity.
  - rewrite move_frog_to_right_decrement, move_frog_to_right_column, Hc.
    split; [|reflexivity]. apply oracle_out_of_bounds. right. reflexivity.
Qed.

(** C5: walking the frog of a new game to the left, the eighth move
    starts at column 0 and stores column -1; to the right, the ninth
    move starts at column 15 and stores column 16.  The stored column
    leaves 0..15. *)
Theorem C5_boundary_move_leaves_grid :
  let g := exec initialise_game power_on in
  let lefts n := exec (repeat_m n move_frog_to_left) g in
  let rights n := exec (repeat_m n move_frog_to_right) g in
  frog_column (lefts 7%nat) = 0 /\
  frog_column (lefts 8%nat) = -1 /\
  frog_column (rights 8%nat) = 15 /\
  frog_column (rights 9%nat) = 16 /\
  frog_dead (lefts 8%nat) = 0 /\ frog_dead (rights 9%nat) = 0.
Proof. vm_compute. repeat split; reflexivity. Qed.

(** C10: a forward move adds 10 to the score when the row it moves to is
    7 and 1 otherwise, whether or not the move costs a life; moves
    backward, to the left and to the right leave the score alone. *)
Theorem C10_forward_moves_score (g : game) :
  let fatal :=
    eval (will_frog_die_at_position (int8 (frog_row g + 1)) (frog_column g)) g in
  let g' := exec move_frog_forward g in
  frog_row g' = int8 (frog_row g + 1) /\
  score g' = score g + (if frog_row g' =? 7 then 10 else 1) /\
  frog_lives g' = (if fatal =? 0 then frog_lives g
                   else uint8 (frog_lives g - 1)) /\
  score (exec move_frog_backward g) = score g /\
  score (exec move_frog_to_left g) = score g /\
  score (exec move_frog_to_right g) = score g.
Proof.
  destruct g.
  unfold move_frog_forward, move_frog_backward, move_frog_to_left,
    move_frog_to_right, record_arrival, add_to_score, decrement_lives.
  change (eval (will_frog_die_at_position ?r ?c) ?g) with (oracle_result r c g).
  cbv zeta. repeat split; run_game; reflexivity.
Qed.

(** ** The riverbank *)

Lemma initialise_level_riverbank level g :
  riverbank (exec (initialise_level level) g) = riverbank_by_level level /\
  riverbank_status (exec (initialise_level level) g) = riverbank_by_level level.
Proof.
  destruct g.
  unfold initialise_level, reset_positions, increment_lives,
    put_frog_in_start_position.
  run_game; split; reflexivity.
Qed.

(** C6: the pattern of a level is one of three: 5 holes when the level
    is even, 6 holes when it is odd and divisible by 3, and otherwise
    the baseline [RIVERBANK] with 4 holes; [initialise_level] stores it
    in both [riverbank] and [riverbank_status]. *)
Theorem C6_riverbank_by_level (level : Z) (g : game) :
  let pattern := riverbank_by_level level in
  let holes := zero_bits 16 pattern in
  (level mod 2 = 0 -> holes = 5%nat) /\
  (level mod 2 <> 0 -> level mod 3 = 0 -> holes = 6%nat) /\
  (level mod 2 <> 0 -> level mod 3 <> 0 ->
   pattern = RIVERBANK /\ holes = 4%nat) /\
  0 <= pattern < 2 ^ 16 /\
  riverbank (exec (initialise_level level) g) = pattern /\
  riverbank_status (exec (initialise_level level) g) = pattern.
Proof.
  destruct (initialise_level_riverbank level g) as [Hbank Hstatus].
  cbv zeta. rewrite Hbank, Hstatus. clear Hbank Hstatus.
  unfold riverbank_by_level.
  destruct (Z.eqb_spec (level mod 2) 0) as [H2 | H2];
    [| destruct (Z.eqb_spec (level mod 3) 0) as [H3 | H3]].
  all: repeat split; intros; try contradiction; try reflexivity.
  all: vm_compute; intros H'; discriminate H'.
Qed.

Lemma C6_riverbank_by_level_witness :
  3 mod 2 <> 0 /\ 3 mod 3 = 0 /\
  zero_bits 16 (riverbank_by_level 3) = 6%nat.
Proof.
  split; [discriminate|]. split; [reflexivity|].
  apply (C6_riverbank_by_level 3 power_on); [discriminate | reflexivity].
Defined.

(** Levels divisible by 3 get more holes than the baseline, not fewer. *)
Lemma C6_divisible_by_3_has_more_holes :
  3 mod 3 = 0 /\
  (zero_bits 16 (riverbank_by_level 1) < zero_bits 16 (riverbank_by_level 3))%nat /\
  (zero_bits 16 (riverbank_by_level 2) < zero_bits 16 (riverbank_by_level 3))%nat.
Proof. vm_compute. repeat split; lia. Qed.

(** ** Arrays *)

Lemma idx_upd_same (a : list Z) (i v : Z) :
  (Z.to_nat i < length a)%nat -> idx (upd a i v) i = v.
Proof.
  intros H. unfold idx, upd. rewrite list_lookup_insert_eq by exact H.
  reflexivity.
Qed.

Lemma upd_upd (a : list Z) (i v w : Z) : upd (upd a i v) i w = upd a i w.
Proof. unfold upd. apply list_insert_insert_eq. Qed.

Lemma upd_idx (a : list Z) (i : Z) : upd a i (idx a i) = a.
Proof.
  unfold upd, idx. destruct (a !! Z.to_nat i) as [v|] eqn:E; simpl.
  - apply list_insert_id. exact E.
  - apply list_insert_ge. apply lookup_ge_None. exact E.
Qed.

(** ** Scrolling *)

Lemma scrolled_range width p d :
  0 < width -> 0 <= scrolled width p d < width.
Proof.
  intros Hw. unfold scrolled. cbv zeta.
  destruct (Z.ltb_spec (int8 (p - d)) 0); [lia|].
  destruct (Z.geb_spec (int8 (p - d)) width); lia.
Qed.

Lemma scrolled_right width p :
  0 < width <= 128 -> 0 <= p < width -> scrolled width p 1 = (p - 1) mod width.
Proof.
  intros Hw Hp. unfold scrolled. cbv zeta. rewrite int8_small by lia.
  destruct (Z.ltb_spec (p - 1) 0).
  - apply Z.mod_unique with (q := -1); lia.
  - destruct (Z.geb_spec (p - 1) width); [lia|].
    symmetry. apply Z.mod_small. lia.
Qed.

Lemma scrolled_left width p :
  0 < width < 128 -> 0 <= p < width -> scrolled width p (-1) = (p + 1) mod width.
Proof.
  intros Hw Hp. unfold scrolled. cbv zeta.
  replace (p - -1) with (p + 1) by lia. rewrite int8_small by lia.
  destruct (Z.ltb_spec (p + 1) 0); [lia|].
  destruct (Z.geb_spec (p + 1) width).
  - apply Z.mod_unique with (q := 1); lia.
  - symmetry. apply Z.mod_small. lia.
Qed.

Lemma scrolled_right_iter width n p :
  0 < width <= 128 -> 0 <= p < width ->
  Nat.iter n (fun q => scrolled width q 1) p = (p - Z.of_nat n) mod width.
Proof.
  intros Hw Hp. induction n as [|n IH].
  - simpl. rewrite Z.sub_0_r. symmetry. apply Z.mod_small. exact Hp.
  - rewrite Nat.iter_succ, IH.
    rewrite scrolled_right by (try apply Z.mod_pos_bound; lia).
    rewrite Zminus_mod_idemp_l. f_equal. lia.
Qed.

Lemma scrolled_left_iter width n p :
  0 < width < 128 -> 0 <= p < width ->
  Nat.iter n (fun q => scrolled width q (-1)) p = (p + Z.of_nat n) mod width.
Proof.
  intros Hw Hp. induction n as [|n IH].
  - simpl. rewrite Z.add_0_r. symmetry. apply Z.mod_small. exact Hp.
  - rewrite Nat.iter_succ, IH.
    rewrite scrolled_left by (try apply Z.mod_pos_bound; lia).
    rewrite Zplus_mod_idemp_l. f_equal. lia.
Qed.

Lemma scroll_vehicle_lane_run lane d g :
  exec (scroll_vehicle_lane lane d) g =
  if frog_row g =? lane + FIRST_VEHICLE_ROW
  then exec (death_handling (frog_row g) (frog_column g)) (rotate_lane lane d g)
  else rotate_lane lane d g.
Proof.
  unfold scroll_vehicle_lane, death_handling, rotate_lane.
  cbv beta iota zeta delta [exec bind gets modify when ret fst snd].
  destruct (frog_row g =? lane + FIRST_VEHICLE_ROW); reflexivity.
Qed.

Lemma scroll_river_channel_run channel d g :
  exec (scroll_river_channel channel d) g =
  rotate_channel channel d
    (if frog_row g =? channel + FIRST_RIVER_ROW then
       if (d =? 1) && (frog_column g =? 15) then exec decrement_lives g
       else if (d =? -1) && (frog_column g =? 0) then exec decrement_lives g
       else set_frog_column (int8 (frog_column g + d)) g
     else g).
Proof.
  unfold scroll_river_channel, rotate_channel.
  cbv beta iota zeta delta [exec bind gets modify when ret fst snd].
  destruct (frog_row g =? channel + FIRST_RIVER_ROW); [|reflexivity].
  destruct ((d =? 1) && (frog_column g =? 15)).
  - destruct (decrement_lives g). reflexivity.
  - destruct ((d =? -1) && (frog_column g =? 0)); [|reflexivity].
    destruct (decrement_lives g). reflexivity.
Qed.

Lemma death_handling_frame r c g :
  let g' := exec (death_handling r c) g in
  frog_row g' = frog_row g /\ frog_column g' = frog_column g /\
  lane_data g' = lane_data g /\ log_data g' = log_data g /\
  lane_position g' = lane_position g /\ log_position g' = log_position g /\
  riverbank g' = riverbank g /\ riverbank_status g' = riverbank_status g /\
  score g' = score g.
Proof.
  destruct g. unfold death_handling, decrement_lives.
  run_game; repeat split; reflexivity.
Qed.

Lemma scroll_vehicle_lane_offsets lane d g :
  let g' := exec (scroll_vehicle_lane lane d) g in
  lane_position g' =
    upd (lane_position g) lane
      (scrolled LANE_DATA_WIDTH (idx (lane_position g) lane) d) /\
  log_position g' = log_position g /\
  lane_data g' = lane_data g /\ log_data g' = log_data g.
Proof.
  cbv zeta. rewrite scroll_vehicle_lane_run.
  destruct (frog_row g =? lane + FIRST_VEHICLE_ROW).
  - pose proof (death_handling_frame (frog_row g) (frog_column g)
                  (rotate_lane lane d g)) as H. cbv zeta in H.
    destruct H as (_ & _ & -> & -> & -> & -> & _). repeat split.
  - repeat split.
Qed.

Lemma scroll_river_channel_offsets channel d g :
  let g' := exec (scroll_river_channel channel d) g in
  log_position g' =
    upd (log_position g) channel
      (scrolled LOG_DATA_WIDTH (idx (log_position g) channel) d) /\
  lane_position g' = lane_position g /\
  lane_data g' = lane_data g /\ log_data g' = log_data g.
Proof.
  cbv zeta. rewrite scroll_river_channel_run.
  pose proof (decrement_lives_frame g) as H. cbv zeta in H.
  destruct H as (_ & _ & _ & Hld & Hgd & Hlp & Hgp & _).
  destruct (frog_row g =? channel + FIRST_RIVER_ROW); [|repeat split].
  destruct ((d =? 1) && (frog_column g =? 15));
    [|destruct ((d =? -1) && (frog_column g =? 0))].
  all: unfold rotate_channel; simpl; rewrite ?Hld, ?Hgd, ?Hlp, ?Hgp;
       repeat split.
Qed.

Lemma scroll_vehicle_lane_repeat n lane d g :
  lane_position (exec (repeat_m n (scroll_vehicle_lane lane d)) g) =
  upd (lane_position g) lane
    (Nat.iter n (fun q => scrolled LANE_DATA_WIDTH q d)
       (idx (lane_position g) lane)).
Proof.
  revert g. induction n as [|n IH]; intros g.
  - simpl. symmetry. apply upd_idx.
  - change (repeat_m (S n) (scroll_vehicle_lane lane d))
      with (scroll_vehicle_lane lane d ;; repeat_m n (scroll_vehicle_lane lane d)).
    rewrite exec_seq, IH.
    destruct (scroll_vehicle_lane_offsets lane d g) as (-> & _).
    destruct (Nat.lt_ge_cases (Z.to_nat lane) (length (lane_position g)))
      as [Hin | Hout].
    + rewrite idx_upd_same by exact Hin. rewrite upd_upd.
      rewrite (Nat.iter_succ_r n (fun q => scrolled LANE_DATA_WIDTH q d)).
      reflexivity.
    + unfold upd. rewrite !list_insert_ge by (rewrite ?length_insert; lia).
      reflexivity.
Qed.

(** [n] steps one way and [n] steps back return every lane offset. *)
Lemma lane_round_trip n lane g :
  offsets_in_range g ->
  lane_position
    (exec (repeat_m n (scroll_vehicle_lane lane (-1)))
       (exec (repeat_m n (scroll_vehicle_lane lane 1)) g)) = lane_position g.
Proof.
  intros Hinv. rewrite !scroll_vehicle_lane_repeat.
  pose proof (lane_offset_range g lane Hinv) as Hp.
  destruct (Nat.lt_ge_cases (Z.to_nat lane) (length (lane_position g)))
    as [Hin | Hout].
  - rewrite idx_upd_same by exact Hin. rewrite upd_upd.
    unfold LANE_DATA_WIDTH.
    rewrite scrolled_right_iter by lia.
    rewrite scrolled_left_iter by (try apply Z.mod_pos_bound; lia).
    rewrite Zplus_mod_idemp_l.
    replace (idx (lane_position g) lane - Z.of_nat n + Z.of_nat n)
      with (idx (lane_position g) lane) by lia.
    rewrite Z.mod_small by lia. apply upd_idx.
  - unfold upd. rewrite !list_insert_ge by (rewrite ?length_insert; lia).
    reflexivity.
Qed.

Lemma scroll_vehicle_lane_in_range lane d g :
  offsets_in_range g -> offsets_in_range (exec (scroll_vehicle_lane lane d) g).
Proof.
  intros [Hlane Hlog]. unfold offsets_in_range.
  destruct (scroll_vehicle_lane_offsets lane d g) as (-> & -> & _).
  split; [|exact Hlog].
  apply Forall_insert; [exact Hlane|]. apply scrolled_range. reflexivity.
Qed.

Lemma scroll_river_channel_in_range channel d g :
  offsets_in_range g ->
  offsets_in_range (exec (scroll_river_channel channel d) g).
Proof.
  intros [Hlane Hlog]. unfold offsets_in_range.
  destruct (scroll_river_channel_offsets channel d g) as (-> & -> & _).
  split; [exact Hlane|].
  apply Forall_insert; [exact Hlog|]. apply scrolled_range. reflexivity.
Qed.

(** C9: five rotations of a traffic lane by +1 followed by five by -1
    give back the offsets; a rotation by any direction leaves every lane
    offset in 0..63 and every channel offset in 0..31; the bit patterns
    [lane_data] and [log_data] are never written. *)
Theorem C9_rotation (g : game) (lane channel d : Z) :
  offsets_in_range g ->
  let there := exec (repeat_m 5 (scroll_vehicle_lane lane 1)) g in
  let back := exec (repeat_m 5 (scroll_vehicle_lane lane (-1))) there in
  let lane_scrolled := exec (scroll_vehicle_lane lane d) g in
  let channel_scrolled := exec (scroll_river_channel channel d) g in
  lane_position back = lane_position g /\
  offsets_in_range lane_scrolled /\
  offsets_in_range channel_scrolled /\
  (lane_data lane_scrolled = lane_data g /\
   log_data lane_scrolled = log_data g) /\
  (lane_data channel_scrolled = lane_data g /\
   log_data channel_scrolled = log_data g).
Proof.
  intros Hinv. cbv zeta.
  split; [apply lane_round_trip; exact Hinv|].
  split; [apply scroll_vehicle_lane_in_range; exact Hinv|].
  split; [apply scroll_river_channel_in_range; exact Hinv|].
  split.
  - apply (scroll_vehicle_lane_offsets lane d g).
  - apply (scroll_river_channel_offsets channel d g).
Qed.

Lemma C9_rotation_witness :
  let g := exec initialise_game power_on in
  offsets_in_range g /\
  lane_position
    (exec (repeat_m 5 (scroll_vehicle_lane 0 (-1)))
       (exec (repeat_m 5 (scroll_vehicle_lane 0 1)) g)) = lane_position g.
Proof.
  intros g.
  assert (Hinv : offsets_in_range g)
    by (split; repeat constructor; vm_compute; congruence).
  split; [exact Hinv|].
  apply (C9_rotation g 0 0 1 Hinv).
Defined.

(** ** Rotation under the frog *)

Lemma moves_share_death_handling g :
  let row := frog_row g in
  let col := frog_column g in
  exec move_frog_forward g =
    exec (death_handling (int8 (row + 1)) col ;;
          modify (set_frog_row (int8 (row + 1))) ;;
          (if int8 (row + 1) =? 7 then add_to_score 10 else add_to_score 1) ;;
          record_arrival) g /\
  exec move_frog_backward g =
    exec (death_handling (int8 (row - 1)) col ;;
          modify (set_frog_row (int8 (row - 1))) ;;
          record_arrival) g /\
  exec move_frog_to_left g =
    exec (death_handling row (int8 (col - 1)) ;;
          modify (set_frog_column (int8 (col - 1))) ;;
          record_arrival) g /\
  exec move_frog_to_right g =
    exec (death_handling row (int8 (col + 1)) ;;
          modify (set_frog_column (int8 (col + 1))) ;;
          record_arrival) g.
Proof.
  destruct g.
  unfold move_frog_forward, move_frog_backward, move_frog_to_left,
    move_frog_to_right, death_handling, record_arrival, add_to_score,
    decrement_lives.
  cbv zeta. repeat split; run_game; reflexivity.
Qed.

Lemma oracle_river_row g channel c :
  offsets_in_range g -> 0 <= channel <= 1 -> 0 <= c <= 15 ->
  oracle_result (channel + FIRST_RIVER_ROW) c g =
  Z.b2z (negb (Z.testbit (idx (log_data g) channel)
                 ((idx (log_position g) channel + c) mod 32))).
Proof.
  intros Hinv Hch Hc. unfold oracle_result, eval.
  rewrite (oracle_in_bounds _ c g Hc).
  pose proof (log_offset_range g channel Hinv) as Hp.
  pose proof (wrap_once 32 _ c (or_intror eq_refl) Hp Hc) as Hw.
  assert (channel = 0 \/ channel = 1) as [-> | ->] by lia.
  - change (0 + FIRST_RIVER_ROW) with 5. cbv beta iota zeta.
    change (5 - 5) with 0. rewrite Hw. reflexivity.
  - change (1 + FIRST_RIVER_ROW) with 6. cbv beta iota zeta.
    change (6 - 5) with 1. rewrite Hw. reflexivity.
Qed.

(** A frog that rides the log stays over the same bit of the pattern. *)
Lemma carried_frog_keeps_its_bit g channel d :
  offsets_in_range g ->
  0 <= channel <= 1 -> (Z.to_nat channel < length (log_position g))%nat ->
  d = 1 \/ d = -1 ->
  0 <= frog_column g <= 15 -> 0 <= frog_column g + d <= 15 ->
  let g' := rotate_channel channel d
              (set_frog_column (int8 (frog_column g + d)) g) in
  oracle_result (channel + FIRST_RIVER_ROW) (frog_column g') g' =
  oracle_result (channel + FIRST_RIVER_ROW) (frog_column g) g.
Proof.
  intros Hinv Hch Hlen Hd Hc Hc' g'.
  pose proof (log_offset_range g channel Hinv) as Hp.
  assert (Hinv' : offsets_in_range g').
  { destruct Hinv as [Hlane Hlog]. split; [exact Hlane|].
    apply Forall_insert; [exact Hlog|]. apply scrolled_range. reflexivity. }
  assert (Hcol : frog_column g' = frog_column g + d)
    by (apply int8_small; lia).
  rewrite !oracle_river_row by (rewrite ?Hcol; assumption || lia).
  rewrite Hcol. do 3 f_equal.
  change (log_position g') with
    (upd (log_position g) channel
       (scrolled LOG_DATA_WIDTH (idx (log_position g) channel) d)).
  rewrite idx_upd_same by exact Hlen. unfold LOG_DATA_WIDTH.
  destruct Hd as [-> | ->].
  - rewrite scrolled_right by lia. rewrite Zplus_mod_idemp_l. f_equal. lia.
  - rewrite scrolled_left by lia. rewrite Zplus_mod_idemp_l. f_equal. lia.
Qed.

(** C4: a move hands the oracle's answer for its target cell to
    [death_handling].  When a traffic lane under the frog is rotated,
    the oracle is asked about the frog's unchanged cell in the rotated
    state and the answer is handled in the same way.  When a river channel under the frog
    is rotated the oracle is not asked: at the edge (column 15 with
    direction 1, column 0 with direction -1) the frog loses a life and
    keeps its column, otherwise its column changes by the direction and
    it stays over the same bit of the log pattern. *)
Theorem C4_rotation_under_frog (g : game) (lane channel d : Z) :
  let row := frog_row g in
  let col := frog_column g in
  (exec move_frog_to_left g =
     exec (death_handling row (int8 (col - 1)) ;;
           modify (set_frog_column (int8 (col - 1))) ;;
           record_arrival) g /\
   exec move_frog_to_right g =
     exec (death_handling row (int8 (col + 1)) ;;
           modify (set_frog_column (int8 (col + 1))) ;;
           record_arrival) g) /\
  (row = lane + FIRST_VEHICLE_ROW ->
   exec (scroll_vehicle_lane lane d) g =
   exec (death_handling row col) (rotate_lane lane d g)) /\
  (row = channel + FIRST_RIVER_ROW ->
   let g' := exec (scroll_river_channel channel d) g in
   let at_edge := ((d =? 1) && (col =? 15)) || ((d =? -1) && (col =? 0)) in
   decrement g' = decrement g /\
   (at_edge = true ->
    g' = rotate_channel channel d (exec decrement_lives g) /\
    frog_column g' = col /\
    frog_lives g' = uint8 (frog_lives g - 1)) /\
   (at_edge = false ->
    g' = rotate_channel channel d (set_frog_column (int8 (col + d)) g) /\
    frog_column g' = int8 (col + d) /\
    frog_lives g' = frog_lives g /\ frog_dead g' = frog_dead g) /\
   (at_edge = false ->
    offsets_in_range g -> 0 <= channel <= 1 ->
    (Z.to_nat channel < length (log_position g))%nat ->
    d = 1 \/ d = -1 -> 0 <= col <= 15 ->
    oracle_result row (frog_column g') g' = oracle_result row col g)).
Proof.
  cbv zeta. split; [split; apply (moves_share_death_handling g)|]. split.
  - intros Hrow. rewrite scroll_vehicle_lane_run.
    rewrite Hrow, Z.eqb_refl. reflexivity.
  - intros Hrow. rewrite scroll_river_channel_run.
    rewrite (proj2 (Z.eqb_eq _ _) Hrow).
    pose proof (decrement_lives_frame g) as Hf. cbv zeta in Hf.
    destruct Hf as (_ & Hcol & Hdcr & _).
    destruct ((d =? 1) && (frog_column g =? 15)) eqn:Eright;
      [|destruct ((d =? -1) && (frog_column g =? 0)) eqn:Eleft]; simpl.
    + split; [exact Hdcr|]. split; [|split; intros H; discriminate H].
      intros _. split; [reflexivity|]. split; [exact Hcol|].
      apply decrement_lives_lives.
    + split; [exact Hdcr|]. split; [|split; intros H; discriminate H].
      intros _. split; [reflexivity|]. split; [exact Hcol|].
      apply decrement_lives_lives.
    + split; [reflexivity|]. split; [intros H; discriminate H|].
      split; [intros _; repeat split|].
      intros _ Hinv Hch Hlen Hd Hc. rewrite Hrow.
      apply (carried_frog_keeps_its_bit g channel d); try assumption.
      apply andb_false_iff in Eright, Eleft.
      destruct Hd as [-> | ->]; simpl in Eright, Eleft.
      * destruct Eright as [E | E]; [discriminate E|].
        apply Z.eqb_neq in E. lia.
      * destruct Eleft as [E | E]; [discriminate E|].
        apply Z.eqb_neq in E. lia.
Qed.

Lemma C4_rotation_under_frog_witness :
  frog_row frog_on_log = 0 + FIRST_RIVER_ROW /\
  frog_column (exec (scroll_river_channel 0 (-1)) frog_on_log) = 6 /\
  oracle_result 5 6 (exec (scroll_river_channel 0 (-1)) frog_on_log) =
  oracle_result 5 7 frog_on_log.
Proof.
  assert (Hrow : frog_row frog_on_log = 0 + FIRST_RIVER_ROW) by reflexivity.
  destruct (C4_rotation_under_frog frog_on_log 0 0 (-1)) as (_ & _ & Hriver).
  destruct (Hriver Hrow) as (_ & _ & Hmove & Hbit).
  split; [exact Hrow|]. split.
  - destruct Hmove as (_ & Hcol & _); [reflexivity|]. exact Hcol.
  - apply Hbit.
    + reflexivity.
    + split; repeat constructor; vm_compute; congruence.
    + lia.
    + vm_compute. lia.
    + right. reflexivity.
    + vm_compute. split; congruence.
Defined.

(** The frog sits on a log at (5, 7).  Channel 0 is rotated by -1.  In
    the rotated state the frog's old cell (5, 7) is water, yet no life
    is taken and [decrement] stays 0: the frog has moved to column 6. *)
Lemma C4_river_rotation_asks_no_oracle :
  let g := frog_on_log in
  let g' := exec (scroll_river_channel 0 (-1)) g in
  (frog_row g = 0 + FIRST_RIVER_ROW /\ frog_column g = 7 /\
   eval (will_frog_die_at_position 5 7) g = 0) /\
  eval (will_frog_die_at_position (frog_row g) (frog_column g)) g' = 1 /\
  frog_lives g' = frog_lives g /\ decrement g' = 0 /\ frog_column g' = 6.
Proof. vm_compute. repeat split; reflexivity. Qed.

(** ** The occupancy model over a whole game *)

(** A store into a variable that the occupancy model does not read. *)
Ltac other_variable := apply preserves_modify; intros ? H; exact H.

Lemma occupancy_ok_power_on : occupancy_ok power_on.
Proof.
  split; [|split; reflexivity].
  split; repeat constructor; vm_compute; congruence.
Qed.

Lemma oracle_keeps (P : game -> Prop) r c :
  preserves P (will_frog_die_at_position r c).
Proof. intros g H. rewrite oracle_reads_only. exact H. Qed.

#[export] Hint Resolve oracle_keeps : preserves.

Lemma decrement_lives_keeps_occupancy : preserves occupancy_ok decrement_lives.
Proof. unfold decrement_lives. preserve; other_variable. Qed.

Lemma increment_lives_keeps_occupancy : preserves occupancy_ok increment_lives.
Proof. unfold increment_lives. preserve; other_variable. Qed.

Lemma put_frog_keeps_occupancy :
  preserves occupancy_ok put_frog_in_start_position.
Proof. unfold put_frog_in_start_position. preserve; other_variable. Qed.

Lemma record_arrival_keeps_occupancy : preserves occupancy_ok record_arrival.
Proof. unfold record_arrival. preserve; other_variable. Qed.

#[export] Hint Resolve decrement_lives_keeps_occupancy
  increment_lives_keeps_occupancy put_frog_keeps_occupancy
  record_arrival_keeps_occupancy : preserves.

(** Stores of constant start offsets. *)
Lemma start_offsets_keep_occupancy (lanes logs : list Z) :
  Forall (fun p => 0 <= p < LANE_DATA_WIDTH) lanes ->
  Forall (fun p => 0 <= p < LOG_DATA_WIDTH) logs ->
  preserves occupancy_ok
    (modify (set_lane_position lanes) ;; modify (set_log_position logs)).
Proof.
  intros Hlanes Hlogs g (_ & Hld & Hgd).
  split; [split; assumption | split; assumption].
Qed.

Lemma reset_positions_keeps_occupancy level :
  preserves occupancy_ok (reset_positions level).
Proof.
  unfold reset_positions.
  destruct (level mod 2 =? 0); [|destruct (level mod 3 =? 0)];
    apply start_offsets_keep_occupancy; repeat constructor;
    vm_compute; congruence.
Qed.

#[export] Hint Resolve reset_positions_keeps_occupancy : preserves.

Lemma initialise_game_keeps_occupancy : preserves occupancy_ok initialise_game.
Proof.
  unfold initialise_game, init_led.
  intros g Hok.
  apply (preserves_bind occupancy_ok
           (modify (set_lane_position [0; 0; 0]) ;; modify (set_log_position [0; 0]))
           (fun _ => modify (set_riverbank RIVERBANK) ;;
                     modify (set_riverbank_status RIVERBANK) ;;
                     modify (set_frog_lives 3) ;;
                     modify (set_PORTA 7) ;;
                     put_frog_in_start_position)) in Hok.
  - exact Hok.
  - apply start_offsets_keep_occupancy; repeat constructor;
      vm_compute; congruence.
  - intros _. preserve; other_variable.
Qed.

Lemma initialise_life_keeps_occupancy level :
  preserves occupancy_ok (initialise_life level).
Proof. unfold initialise_life. preserve; other_variable. Qed.

Lemma initialise_level_keeps_occupancy level :
  preserves occupancy_ok (initialise_level level).
Proof. unfold initialise_level. preserve; other_variable. Qed.

Lemma moves_keep_occupancy :
  preserves occupancy_ok move_frog_forward /\
  preserves occupancy_ok move_frog_backward /\
  preserves occupancy_ok move_frog_to_left /\
  preserves occupancy_ok move_frog_to_right.
Proof.
  unfold move_frog_forward, move_frog_backward, move_frog_to_left,
    move_frog_to_right, add_to_score.
  split; [|split; [|split]]; preserve; other_variable.
Qed.

Lemma scroll_vehicle_lane_keeps_occupancy lane d :
  preserves occupancy_ok (scroll_vehicle_lane lane d).
Proof.
  intros g (Hr & Hld & Hgd).
  destruct (scroll_vehicle_lane_offsets lane d g) as (_ & _ & Hl & Hg).
  split; [apply scroll_vehicle_lane_in_range; exact Hr|].
  split; congruence.
Qed.

Lemma scroll_river_channel_keeps_occupancy channel d :
  preserves occupancy_ok (scroll_river_channel channel d).
Proof.
  intros g (Hr & Hld & Hgd).
  destruct (scroll_river_channel_offsets channel d g) as (_ & _ & Hl & Hg).
  split; [apply scroll_river_channel_in_range; exact Hr|].
  split; congruence.
Qed.

#[export] Hint Resolve initialise_game_keeps_occupancy
  initialise_life_keeps_occupancy initialise_level_keeps_occupancy
  scroll_vehicle_lane_keeps_occupancy scroll_river_channel_keeps_occupancy
  : preserves.

End GameFacts.

Module TimerFacts.
Import Timer0.

(** ** The countdown while paused *)

(** [same32] is a congruence for the arithmetic of C. *)

Lemma same32_eq a b : same32 a b -> uint32 a = uint32 b.
Proof. intros [H]. exact H. Qed.

#[local] Instance same32_equivalence : Equivalence same32.
Proof.
  split.
  - intros a. constructor. reflexivity.
  - intros a b [H]. constructor. symmetry. exact H.
  - intros a b c [H1] [H2]. constructor. congruence.
Qed.

#[local] Instance same32_add : Proper (same32 ==> same32 ==> same32) Z.add.
Proof.
  intros a a' [Ha] b b' [Hb]. constructor.
  exact (Zplus_eqm (2 ^ 32) _ _ Ha _ _ Hb).
Qed.

#[local] Instance same32_sub : Proper (same32 ==> same32 ==> same32) Z.sub.
Proof.
  intros a a' [Ha] b b' [Hb]. constructor.
  exact (Zminus_eqm (2 ^ 32) _ _ Ha _ _ Hb).
Qed.

#[local] Instance same32_conv : Proper (same32 ==> same32) uint32.
Proof. intros a b [H]. constructor. rewrite H. reflexivity. Qed.

Lemma same32_uint32 a : same32 (uint32 a) a.
Proof. constructor. exact (Zmod_eqm (2 ^ 32) a). Qed.

Ltac run_timer :=
  cbv beta iota zeta delta
    [exec eval bind ret gets modify when fst snd negb andb
     clockTicks countdown_inited times_up frog_start_time start_pause
     total_time_paused paused_time is_paused set_clockTicks
     set_countdown_inited set_times_up set_frog_start_time set_start_pause
     set_total_time_paused set_paused_time set_is_paused].

(** Closes an equation between [uint32_t] values by arithmetic modulo
    2^32. *)
Ltac modulo_2_32 :=
  apply same32_eq; rewrite ?same32_uint32; constructor; f_equal; lia.

(** A tick during a pause does not add to the played time. *)
Lemma tick_while_paused t :
  is_paused t <> 0 -> played_time (exec ISR_TIMER0_COMPA t) = played_time t.
Proof.
  intros Hp. destruct t as [ticks inited up fs sp total pt paused].
  simpl in Hp. apply Z.eqb_neq in Hp.
  unfold played_time, ISR_TIMER0_COMPA, amount_time_paused, time_remaining,
    get_current_time.
  run_timer. rewrite Hp. run_timer.
  match goal with
  | |- context [if ?c then _ else _] => destruct c
  end; run_timer; rewrite Hp; run_timer; modulo_2_32.
Qed.

(** A tick outside a pause adds one millisecond. *)
Lemma tick_while_running t :
  is_paused t = 0 ->
  played_time (exec ISR_TIMER0_COMPA t) = uint32 (played_time t + 1).
Proof.
  intros Hp. destruct t as [ticks inited up fs sp total pt paused].
  simpl in Hp. apply Z.eqb_eq in Hp.
  unfold played_time, ISR_TIMER0_COMPA, amount_time_paused, time_remaining,
    get_current_time.
  run_timer. rewrite Hp. run_timer.
  match goal with
  | |- context [if ?c then _ else _] => destruct c
  end; run_timer; rewrite Hp; run_timer; modulo_2_32.
Qed.

(** Pausing and resuming leave the played time as it is. *)
Lemma countdown_pause_keeps_played_time t :
  played_time (exec countdown_pause t) = played_time t.
Proof.
  destruct t as [ticks inited up fs sp total pt paused].
  unfold played_time, countdown_pause, amount_time_paused, get_current_time.
  run_timer.
  destruct (paused =? 0); run_timer;
    change (1 =? 0) with false; change (0 =? 0) with true; run_timer;
    modulo_2_32.
Qed.

(** The time left that the interrupt handler computes is [TOTAL_TIME]
    less the played time. *)
Lemma time_remaining_after_tick t :
  eval time_remaining (exec ISR_TIMER0_COMPA t) =
  uint32 (TOTAL_TIME - played_time (exec ISR_TIMER0_COMPA t)).
Proof.
  destruct t as [ticks inited up fs sp total pt paused].
  unfold played_time, ISR_TIMER0_COMPA, amount_time_paused, time_remaining,
    get_current_time.
  run_timer.
  destruct (paused =? 0) eqn:Hp; run_timer;
    match goal with
    | |- context [if ?c then _ else _] => destruct c
    end; run_timer; rewrite Hp; run_timer; modulo_2_32.
Qed.

End TimerFacts.

Module ProjectFacts.
Import Project.
Import GameFacts.

(** ** The occupancy model over every run *)

Lemma in_game_keeps {A} (m : Game.G A) :
  preserves Game.occupancy_ok m -> preserves occupancy_ok_in (in_game m).
Proof.
  intros Hm [g t p] H. unfold occupancy_ok_in, exec, in_game in *. simpl in *.
  specialize (Hm g H). unfold exec in Hm. destruct (m g). exact Hm.
Qed.

Lemma in_timer_keeps {A} (m : Timer0.T A) :
  preserves occupancy_ok_in (in_timer m).
Proof.
  intros [g t p] H. unfold occupancy_ok_in, exec, in_timer in *. simpl in *.
  destruct (m t). exact H.
Qed.

Lemma here_keeps {A} (m : M project A) : preserves occupancy_ok_in (here m).
Proof.
  intros [g t p] H. unfold occupancy_ok_in, exec, here in *. simpl in *.
  destruct (m p). exact H.
Qed.

#[local] Hint Resolve in_timer_keeps here_keeps : preserves.
#[local] Hint Extern 1 (preserves _ (in_game _)) =>
  apply in_game_keeps : preserves.
#[local] Hint Extern 2 (preserves Game.occupancy_ok _) =>
  first [ apply moves_keep_occupancy
        | unfold Game.is_frog_dead, Game.is_decremented, Game.is_riverbank_full,
            Game.frog_has_reached_riverbank, Game.init_led;
          preserve; other_variable ] : preserves.

Lemma pause_game_keeps : preserves occupancy_ok_in pause_game.
Proof. unfold pause_game. preserve. Qed.

Lemma level_complete_keeps : preserves occupancy_ok_in level_complete.
Proof. unfold level_complete. preserve. Qed.

#[local] Hint Resolve pause_game_keeps level_complete_keeps : preserves.

Lemma life_and_level_checks_keeps :
  preserves occupancy_ok_in life_and_level_checks.
Proof. unfold life_and_level_checks. preserve. Qed.

Lemma process_input_keeps r : preserves occupancy_ok_in (process_input r).
Proof.
  unfold process_input. apply preserves_bind; [preserve|]. intros p.
  destruct r; preserve.
Qed.

Lemma scroll_triggers_keeps : preserves occupancy_ok_in scroll_triggers.
Proof.
  unfold scroll_triggers, due. preserve.
Qed.

#[local] Hint Resolve life_and_level_checks_keeps process_input_keeps
  scroll_triggers_keeps : preserves.

Lemma step_keeps e : preserves occupancy_ok_in (step e).
Proof.
  destruct e as [|r]; simpl; preserve.
  unfold play_game_turn. preserve.
Qed.

Lemma run_keeps es : preserves occupancy_ok_in (run es).
Proof.
  induction es as [|e es IH]; simpl.
  - apply preserves_ret.
  - apply preserves_bind; [apply step_keeps | intros _; exact IH].
Qed.

(** In every run of the program, from power-on through [new_game] and
    any sequence of loop turns and timer ticks, the offsets stay in
    range and the bit patterns stay as initialised. *)
Lemma occupancy_ok_always es :
  Game.occupancy_ok (game_of (exec (run es) fresh_game)).
Proof.
  apply (run_keeps es fresh_game).
  apply (preserves_bind occupancy_ok_in new_game (fun _ => play_game_start)).
  - unfold new_game. preserve.
  - intros _. unfold play_game_start. preserve.
  - exact occupancy_ok_power_on.
Qed.

(** ** A game in progress *)

(** C3: in a run of the program the life counter leaves 0..4.  With one
    life left the countdown expires; the turn that takes the last life
    goes on to carry out the requested move, which is fatal too, and the
    counter goes from 0 to 255. *)
Theorem C3_lives_leave_range :
  let before := exec (run (removelast timeout_then_move)) fresh_game in
  let after := exec (run timeout_then_move) fresh_game in
  (Game.frog_lives (game_of fresh_game) = 3 /\
   Game.frog_dead (game_of fresh_game) = 0) /\
  (Game.frog_lives (game_of before) = 1 /\
   Game.frog_dead (game_of before) = 0 /\
   Game.frog_column (game_of before) = 0 /\
   Timer0.times_up (timer_of before) = 1) /\
  (Game.frog_lives (game_of after) = 255 /\
   Game.frog_dead (game_of after) = 1).
Proof. vm_compute. repeat split; reflexivity. Qed.

(** ** Speed-up *)

Lemma play_game_start_speed_up w :
  speed_up_by (project_of (exec play_game_start w)) = 0.
Proof.
  destruct w as [g t p]. unfold play_game_start.
  cbv beta iota zeta delta
    [exec bind ret gets modify fst snd here in_timer game_of timer_of
     project_of set_game_of set_timer_of set_project_of].
  destruct (Timer0.init_countdown t) as [u t'].
  destruct (Timer0.get_current_time t') as [now t''].
  reflexivity.
Qed.

Lemma level_complete_speed_up w :
  speed_up_by (project_of (exec level_complete w)) =
  uint16 (speed_up_by (project_of w) + 50).
Proof.
  destruct w as [g t p]. unfold level_complete.
  cbv beta iota zeta delta
    [exec bind ret gets modify fst snd here in_timer in_game game_of timer_of
     project_of set_game_of set_timer_of set_project_of].
  destruct (Game.initialise_level _ g) as [u g'].
  destruct (Timer0.init_countdown t) as [u' t'].
  destruct p. reflexivity.
Qed.

Lemma trigger_time_exact last_move base speed_up :
  0 <= speed_up <= last_move + base -> last_move + base < 2 ^ 32 ->
  trigger_time last_move base speed_up = last_move + base - speed_up.
Proof.
  intros Hs Hl. unfold trigger_time, uint32.
  rewrite (Z.mod_small (last_move + base)) by lia.
  apply Z.mod_small. lia.
Qed.

(** C7: the speed-up is 0 when [play_game] starts and a completed level
    adds 50 to it (as a [uint16_t]); nothing floors it.  As long as it
    is at most 750 and the clock is not about to wrap, the trigger
    times computed from it are exact, none lies before the last move,
    and the five channels keep their order. *)
Theorem C7_speed_up_unfloored (w : world) :
  let p := project_of w in
  let su := speed_up_by p in
  let lm := last_move_time p in
  let t base := trigger_time lm base su in
  speed_up_by (project_of (exec play_game_start w)) = 0 /\
  speed_up_by (project_of (exec level_complete w)) = uint16 (su + 50) /\
  (0 <= su < 2 ^ 16 - 50 ->
   speed_up_by (project_of (exec level_complete w)) = su + 50) /\
  (0 <= su <= 750 -> 0 <= lm -> lm + 1300 < 2 ^ 32 ->
   t 750 = lm + 750 - su /\
   lm <= t 750 /\ t 750 < t 850 /\ t 850 < t 1000 /\
   t 1000 < t 1200 /\ t 1200 < t 1300).
Proof.
  cbv zeta.
  split; [apply play_game_start_speed_up|].
  split; [apply level_complete_speed_up|].
  split.
  - intros Hsu. rewrite level_complete_speed_up. unfold uint16.
    apply Z.mod_small. lia.
  - intros Hsu Hlm Hwrap.
    rewrite !trigger_time_exact by lia. lia.
Qed.

Lemma C7_speed_up_unfloored_witness :
  let p := project_of fresh_game in
  (0 <= speed_up_by p <= 750 /\ 0 <= last_move_time p /\
   last_move_time p + 1300 < 2 ^ 32) /\
  trigger_time (last_move_time p) 750 (speed_up_by p) <
  trigger_time (last_move_time p) 850 (speed_up_by p).
Proof.
  cbv zeta.
  assert (H : (0 <= speed_up_by (project_of fresh_game) <= 750 /\
               0 <= last_move_time (project_of fresh_game) /\
               last_move_time (project_of fresh_game) + 1300 < 2 ^ 32))
    by (vm_compute; repeat split; congruence).
  split; [exact H|].
  destruct H as (Hsu & Hlm & Hwrap).
  destruct (C7_speed_up_unfloored fresh_game) as (_ & _ & _ & Horder).
  destruct (Horder Hsu Hlm Hwrap) as (_ & _ & Hlt & _). exact Hlt.
Defined.

(** After sixteen completed levels the speed-up is 800.  The lane with
    the 750 ms cadence is then due 50 ms before the last move; and once
    the clock has wrapped, so that the last move time is small, the
    subtraction underflows and that lane comes due after the one with
    850 ms. *)
Lemma C7_speed_up_passes_cadence :
  let w := exec (repeat_m 16 level_complete) fresh_game in
  (level (project_of w) = 17 /\ speed_up_by (project_of w) = 800) /\
  trigger_time 3600000 750 800 < 3600000 /\
  trigger_time 10 850 800 < trigger_time 10 750 800.
Proof. vm_compute. repeat split; reflexivity. Qed.

(** ** Pausing *)

(** C8: after two pauses only the second is subtracted from the elapsed
    time.  With 250 ms played since the last move, lane 2 (cadence
    750 ms) is rotated all the same; with the pause in one piece it is
    not.  The countdown of timer0.c has all 600 ms on its account in
    both runs. *)
Theorem C8_second_pause_forgets_first :
  let w2 := exec (run two_pauses) fresh_game in
  let w1 := exec (run one_pause) fresh_game in
  (Timer0.clockTicks (timer_of w2) = 850 /\
   Timer0.total_time_paused (timer_of w2) = 600 /\
   last_move_time (project_of fresh_game) = 0 /\
   speed_up_by (project_of w2) = 0) /\
  (time_paused (project_of w2) = 100 /\
   road2 (project_of w2) = 1 /\
   idx (Game.lane_position (game_of fresh_game)) 2 = 0 /\
   idx (Game.lane_position (game_of w2)) 2 = 63) /\
  (Timer0.clockTicks (timer_of w1) = 850 /\
   Timer0.total_time_paused (timer_of w1) = 600 /\
   time_paused (project_of w1) = 600 /\
   road2 (project_of w1) = 0 /\
   idx (Game.lane_position (game_of w1)) 2 = 0).
Proof. vm_compute. repeat split; reflexivity. Qed.

End ProjectFacts.

(** * Further properties *)

Module GameExtras.
Import Game.
Import GameFacts.

(** ** What is drawn is what the oracle sees *)

Lemma row_pixels_lookup n width data on off :
  0 < width <= 128 ->
  forall bp i, 0 <= bp < width -> (i < n)%nat ->
  row_pixels n width data bp on off !! i =
  Some (if Z.testbit data ((bp + Z.of_nat i) mod width) then on else off).
Proof.
  intros Hw. induction n as [|n IH]; intros bp i Hbp Hi; [lia|].
  destruct i as [|i]; simpl.
  - rewrite shiftr_land_1 by lia. rewrite Z.add_0_r, Z.mod_small by lia.
    destruct (Z.testbit data bp); reflexivity.
  - rewrite uint8_small by lia.
    assert (Hnext : (if bp + 1 >=? width then 0 else bp + 1) = (bp + 1) mod width).
    { destruct (Z.geb_spec (bp + 1) width).
      - apply Z.mod_unique with (q := 1); lia.
      - symmetry. apply Z.mod_small. lia. }
    rewrite Hnext. rewrite IH by (try apply Z.mod_pos_bound; lia).
    rewrite Zplus_mod_idemp_l.
    replace (bp + Z.of_nat (S i)) with (bp + 1 + Z.of_nat i) by lia.
    reflexivity.
Qed.

Lemma row_pixels_length n width data bp on off :
  length (row_pixels n width data bp on off) = n.
Proof.
  revert bp. induction n as [|n IH]; intros bp; simpl; [reflexivity|].
  rewrite IH. reflexivity.
Qed.

Lemma oracle_traffic_row g lane c :
  offsets_in_range g -> 0 <= lane <= 2 -> 0 <= c <= 15 ->
  oracle_result (lane + FIRST_VEHICLE_ROW) c g =
  Z.b2z (Z.testbit (idx (lane_data g) lane)
           ((idx (lane_position g) lane + c) mod 64)).
Proof.
  intros Hinv Hlane Hc. unfold oracle_result, eval.
  rewrite (oracle_in_bounds _ c g Hc).
  pose proof (lane_offset_range g lane Hinv) as Hp.
  pose proof (wrap_once 64 _ c (or_introl eq_refl) Hp Hc) as Hw.
  assert (lane = 0 \/ lane = 1 \/ lane = 2) as [-> | [-> | ->]] by lia.
  - change (0 + FIRST_VEHICLE_ROW) with 1. cbv beta iota zeta.
    change (1 - 1) with 0. rewrite Hw. reflexivity.
  - change (1 + FIRST_VEHICLE_ROW) with 2. cbv beta iota zeta.
    change (2 - 1) with 1. rewrite Hw. reflexivity.
  - change (2 + FIRST_VEHICLE_ROW) with 3. cbv beta iota zeta.
    change (3 - 1) with 2. rewrite Hw. reflexivity.
Qed.

(** X1: the pixel that [redraw_traffic_lane] computes for column [c] of
    a lane has the lane's vehicle colour exactly when the oracle finds
    that cell fatal, and the road colour otherwise; the row has 16
    pixels. *)
Theorem traffic_lane_drawn_as_judged pc vehicle_colours g lane c :
  offsets_in_range g -> 0 <= lane <= 2 -> 0 <= c <= 15 ->
  let row := eval (redraw_traffic_lane pc vehicle_colours lane) g in
  length row = 16%nat /\
  idx row c =
  (if oracle_result (lane + FIRST_VEHICLE_ROW) c g =? 0
   then COLOUR_ROAD pc else idx vehicle_colours lane) /\
  exec (redraw_traffic_lane pc vehicle_colours lane) g = g.
Proof.
  intros Hinv Hlane Hc. cbv zeta.
  pose proof (lane_offset_range g lane Hinv) as Hp.
  unfold redraw_traffic_lane.
  cbv beta iota zeta delta [eval exec bind gets ret fst snd].
  split; [apply row_pixels_length|]. split; [|reflexivity].
  unfold idx at 1. rewrite uint8_small by lia.
  rewrite row_pixels_lookup by (unfold LANE_DATA_WIDTH; lia).
  rewrite Z2Nat.id by lia. rewrite oracle_traffic_row by assumption.
  unfold LANE_DATA_WIDTH. simpl.
  destruct (Z.testbit _ _); reflexivity.
Qed.

Lemma traffic_lane_drawn_as_judged_witness :
  let g := exec initialise_game power_on in
  offsets_in_range g /\
  idx (eval (redraw_traffic_lane palette [1; 3; 1] 0) g) 7 =
  (if oracle_result (0 + FIRST_VEHICLE_ROW) 7 g =? 0
   then COLOUR_ROAD palette else idx [1; 3; 1] 0).
Proof.
  intros g.
  assert (Hinv : offsets_in_range g)
    by (split; repeat constructor; vm_compute; congruence).
  split; [exact Hinv|].
  apply (traffic_lane_drawn_as_judged palette [1; 3; 1] g 0 7 Hinv); lia.
Defined.

(** X2: the pixel that [redraw_river_channel] computes for column [c]
    of a channel has the log colour exactly when the oracle finds that
    cell safe, and the water colour otherwise. *)
Theorem river_channel_drawn_as_judged pc g channel c :
  offsets_in_range g -> 0 <= channel <= 1 -> 0 <= c <= 15 ->
  let row := eval (redraw_river_channel pc channel) g in
  length row = 16%nat /\
  idx row c =
  (if oracle_result (channel + FIRST_RIVER_ROW) c g =? 0
   then COLOUR_LOGS pc else COLOUR_WATER pc) /\
  exec (redraw_river_channel pc channel) g = g.
Proof.
  intros Hinv Hch Hc. cbv zeta.
  pose proof (log_offset_range g channel Hinv) as Hp.
  unfold redraw_river_channel.
  cbv beta iota zeta delta [eval exec bind gets ret fst snd].
  split; [apply row_pixels_length|]. split; [|reflexivity].
  unfold idx at 1. rewrite uint8_small by lia.
  rewrite row_pixels_lookup by (unfold LOG_DATA_WIDTH; lia).
  rewrite Z2Nat.id by lia. rewrite oracle_river_row by assumption.
  unfold LOG_DATA_WIDTH. simpl.
  destruct (Z.testbit _ _); reflexivity.
Qed.

Lemma river_channel_drawn_as_judged_witness :
  let g := exec initialise_game power_on in
  offsets_in_range g /\
  idx (eval (redraw_river_channel palette 0) g) 7 =
  (if oracle_result (0 + FIRST_RIVER_ROW) 7 g =? 0
   then COLOUR_LOGS palette else COLOUR_WATER palette).
Proof.
  intros g.
  assert (Hinv : offsets_in_range g)
    by (split; repeat constructor; vm_compute; congruence).
  split; [exact Hinv|].
  apply (river_channel_drawn_as_judged palette g 0 7 Hinv); lia.
Defined.

(** ** The riverbank *)

Lemma bit_test x i :
  0 <= i -> negb (Z.land (Z.shiftr x i) 1 =? 0) = Z.testbit x i.
Proof.
  intros Hi. rewrite shiftr_land_1 by exact Hi.
  destruct (Z.testbit x i); reflexivity.
Qed.

Lemma oracle_riverbank_row g c :
  0 <= c <= 15 ->
  oracle_result RIVERBANK_ROW c g = Z.b2z (Z.testbit (riverbank_status g) c).
Proof.
  intros Hc. unfold oracle_result, eval.
  rewrite (oracle_in_bounds _ c g Hc). reflexivity.
Qed.

Lemma idx_map_seqZ (f : Z -> Z) n c :
  0 <= c < n -> idx (map f (seqZ 0 n)) c = f c.
Proof.
  intros Hc. unfold idx. change (map f (seqZ 0 n)) with (f <$> seqZ 0 n).
  rewrite list_lookup_fmap.
  rewrite (lookup_seqZ_lt 0 n (Z.to_nat c)) by lia.
  simpl. f_equal. lia.
Qed.

(** A 16-bit value has no bit set from bit 16 on. *)
Lemma high_bits_clear a n :
  0 <= a < 2 ^ 16 -> 16 <= n -> Z.testbit a n = false.
Proof.
  intros Ha Hn. rewrite <- (Z.mod_small a (2 ^ 16)) by exact Ha.
  apply Z.mod_pow2_bits_high. lia.
Qed.

(** Every edge is filled, bit by bit. *)
Lemma edge_is_filled g c :
  bank_ok g -> Z.testbit (riverbank g) c = true ->
  Z.testbit (riverbank_status g) c = true.
Proof.
  intros (_ & _ & Hland) Hbit. rewrite <- Hland in Hbit.
  rewrite Z.land_spec in Hbit. apply andb_true_iff in Hbit. apply Hbit.
Qed.

(** X3: in the row that [redraw_riverbank] computes, a column is shown
    as an empty hole (pixel 0) exactly when the oracle lets the frog
    land there; edges and occupied holes are drawn in a colour. *)
Theorem riverbank_drawn_as_judged pc g c :
  bank_ok g -> 0 <= c <= 15 ->
  COLOUR_EDGES pc <> 0 -> COLOUR_FROG pc <> 0 ->
  let row := eval (redraw_riverbank pc) g in
  (idx row c = 0 <-> oracle_result RIVERBANK_ROW c g = 0) /\
  (Z.testbit (riverbank g) c = true -> idx row c = COLOUR_EDGES pc).
Proof.
  intros Hok Hc He Hf. cbv zeta.
  unfold redraw_riverbank.
  cbv beta iota zeta delta [eval bind gets ret fst snd].
  rewrite idx_map_seqZ by lia. rewrite !bit_test by lia.
  rewrite oracle_riverbank_row by exact Hc.
  pose proof (edge_is_filled g c Hok) as Hedge.
  destruct (Z.testbit (riverbank g) c) eqn:Eb;
    destruct (Z.testbit (riverbank_status g) c) eqn:Es; simpl.
  - split; [split; intros H; [contradiction | discriminate H] | reflexivity].
  - specialize (Hedge eq_refl). discriminate Hedge.
  - split; [split; intros H; [contradiction | discriminate H]|].
    intros H; discriminate H.
  - split; [split; reflexivity | intros H; discriminate H].
Qed.

Lemma bank_ok_new_game : bank_ok (exec initialise_game power_on).
Proof. vm_compute. repeat split; congruence. Qed.

Lemma riverbank_drawn_as_judged_witness :
  let g := exec initialise_game power_on in
  (bank_ok g /\ COLOUR_EDGES palette <> 0 /\ COLOUR_FROG palette <> 0) /\
  (idx (eval (redraw_riverbank palette) g) 1 = 0 <->
   oracle_result RIVERBANK_ROW 1 g = 0).
Proof.
  intros g.
  assert (He : COLOUR_EDGES palette <> 0) by (vm_compute; congruence).
  assert (Hf : COLOUR_FROG palette <> 0) by (vm_compute; congruence).
  split; [split; [exact bank_ok_new_game | split; assumption]|].
  apply (riverbank_drawn_as_judged palette g 1 bank_ok_new_game); try assumption.
  lia.
Defined.

(** The store of [record_arrival]. *)
Lemma filled_hole_in_range a c :
  0 <= a < 2 ^ 16 -> 0 <= c <= 15 ->
  uint16 (Z.lor a (Z.shiftl 1 c)) = Z.lor a (2 ^ c) /\
  0 <= Z.lor a (2 ^ c) < 2 ^ 16.
Proof.
  intros Ha Hc. rewrite Z.shiftl_1_l.
  assert (Hbits : forall n, 16 <= n -> Z.testbit (Z.lor a (2 ^ c)) n = false).
  { intros n Hn. rewrite Z.lor_spec, (high_bits_clear a n Ha Hn).
    rewrite Z.pow2_bits_false by lia. reflexivity. }
  assert (Hnonneg : 0 <= Z.lor a (2 ^ c)).
  { apply Z.lor_nonneg. split; [lia | apply Z.pow_nonneg; lia]. }
  assert (Hmod : Z.lor a (2 ^ c) mod 2 ^ 16 = Z.lor a (2 ^ c)).
  { apply Z.bits_inj'. intros n Hn.
    destruct (Z.lt_ge_cases n 16) as [Hlow | Hhigh].
    - apply Z.mod_pow2_bits_low. lia.
    - rewrite Z.mod_pow2_bits_high by lia. symmetry. apply Hbits. exact Hhigh. }
  split; [exact Hmod|]. rewrite <- Hmod at 1 2.
  apply Z.mod_pos_bound. lia.
Qed.

Lemma record_arrival_status g :
  riverbank_status (exec record_arrival g) =
  if (frog_dead g =? 0) && (decrement g =? 0) && (frog_row g =? RIVERBANK_ROW)
  then uint16 (Z.lor (riverbank_status g) (Z.shiftl 1 (frog_column g)))
  else riverbank_status g.
Proof.
  destruct g. unfold record_arrival. run_game; reflexivity.
Qed.

Lemma record_arrival_bank g : riverbank (exec record_arrival g) = riverbank g.
Proof. destruct g. unfold record_arrival. run_game; reflexivity. Qed.

(** The masks stay 16 bits wide with every edge filled, whatever the
    column of the frog. *)
Lemma record_arrival_keeps_bank : preserves bank_ok record_arrival.
Proof.
  intros g (Hb & Hs & Hland). unfold bank_ok.
  rewrite record_arrival_status, record_arrival_bank.
  destruct ((frog_dead g =? 0) && (decrement g =? 0) && (frog_row g =? RIVERBANK_ROW));
    [|repeat split; assumption || lia].
  split; [exact Hb|]. split; [apply Z.mod_pos_bound; lia|].
  apply Z.bits_inj'. intros n Hn. rewrite Z.land_spec.
  destruct (Z.testbit (riverbank g) n) eqn:Eb; [|reflexivity]. simpl.
  assert (Hlow : n < 16).
  { destruct (Z.lt_ge_cases n 16) as [H | H]; [exact H|].
    rewrite (high_bits_clear _ n Hb H) in Eb. discriminate Eb. }
  unfold uint16. rewrite Z.mod_pow2_bits_low by lia. rewrite Z.lor_spec.
  rewrite <- Hland in Eb. rewrite Z.land_spec in Eb.
  apply andb_true_iff in Eb. destruct Eb as [_ ->]. reflexivity.
Qed.

(** ** Landing on the riverbank *)

Lemma forward_safe g :
  oracle_result (int8 (frog_row g + 1)) (frog_column g) g = 0 ->
  let g' := exec move_frog_forward g in
  frog_lives g' = frog_lives g /\ frog_dead g' = frog_dead g /\
  frog_row g' = int8 (frog_row g + 1) /\
  riverbank_status g' =
    (if (frog_dead g =? 0) && (int8 (frog_row g + 1) =? RIVERBANK_ROW)
     then uint16 (Z.lor (riverbank_status g) (Z.shiftl 1 (frog_column g)))
     else riverbank_status g).
Proof.
  destruct g. cbn [frog_row frog_column frog_dead frog_lives riverbank_status].
  intros H. unfold move_frog_forward, record_arrival, add_to_score, decrement_lives.
  cbv zeta. repeat split; run_game; try reflexivity;
    rewrite H in *; discriminate.
Qed.

Lemma forward_lives g :
  frog_lives (exec move_frog_forward g) =
  if oracle_result (int8 (frog_row g + 1)) (frog_column g) g =? 0
  then frog_lives g else uint8 (frog_lives g - 1).
Proof.
  destruct g.
  unfold move_frog_forward, record_arrival, add_to_score, decrement_lives.
  run_game; reflexivity.
Qed.

(** A fatal move, in whichever direction, fills no hole. *)
Lemma fatal_move_fills_no_hole g :
  (oracle_result (int8 (frog_row g + 1)) (frog_column g) g <> 0 ->
   riverbank_status (exec move_frog_forward g) = riverbank_status g) /\
  (oracle_result (int8 (frog_row g - 1)) (frog_column g) g <> 0 ->
   riverbank_status (exec move_frog_backward g) = riverbank_status g) /\
  (oracle_result (frog_row g) (int8 (frog_column g - 1)) g <> 0 ->
   riverbank_status (exec move_frog_to_left g) = riverbank_status g) /\
  (oracle_result (frog_row g) (int8 (frog_column g + 1)) g <> 0 ->
   riverbank_status (exec move_frog_to_right g) = riverbank_status g).
Proof.
  destruct g. cbn [frog_row frog_column riverbank_status].
  unfold move_frog_forward, move_frog_backward, move_frog_to_left,
    move_frog_to_right, record_arrival, add_to_score, decrement_lives.
  repeat split; intros H; run_game; try reflexivity;
    match goal with
    | E : (oracle_result _ _ _ =? 0) = true |- _ =>
        apply Z.eqb_eq in E; contradiction
    end.
Qed.

(** X4: a frog in row 6 that moves forward onto a free hole fills
    exactly that hole, at no cost in lives, and the oracle then refuses
    a second landing there; if the target is an edge or an occupied
    hole the move costs a life and the riverbank stays as it was. *)
Theorem landing_fills_the_hole g :
  bank_ok g -> frog_row g = 6 -> 0 <= frog_column g <= 15 -> frog_dead g = 0 ->
  let c := frog_column g in
  let g' := exec move_frog_forward g in
  (oracle_result RIVERBANK_ROW c g = 0 ->
   riverbank_status g' = Z.lor (riverbank_status g) (2 ^ c) /\
   oracle_result RIVERBANK_ROW c g' = 1 /\
   frog_lives g' = frog_lives g /\ frog_row g' = RIVERBANK_ROW /\
   forall c', 0 <= c' <= 15 -> c' <> c ->
     oracle_result RIVERBANK_ROW c' g' = oracle_result RIVERBANK_ROW c' g) /\
  (oracle_result RIVERBANK_ROW c g <> 0 ->
   riverbank_status g' = riverbank_status g /\
   frog_lives g' = uint8 (frog_lives g - 1)).
Proof.
  intros (_ & Hs & _) Hrow Hcol Hdead. cbv zeta.
  assert (H7 : int8 (frog_row g + 1) = RIVERBANK_ROW) by (rewrite Hrow; reflexivity).
  split.
  - intros Hsafe. rewrite <- H7 in Hsafe.
    destruct (forward_safe g Hsafe) as (Hl & _ & Hr & Hst).
    rewrite Hdead, H7 in Hst. simpl in Hst.
    destruct (filled_hole_in_range _ _ Hs Hcol) as [Hmod _].
    rewrite Hmod in Hst.
    split; [exact Hst|]. rewrite !oracle_riverbank_row by exact Hcol.
    rewrite Hst, Z.lor_spec, Z.pow2_bits_true by lia.
    rewrite orb_true_r. split; [reflexivity|].
    split; [exact Hl|]. split; [rewrite Hr; exact H7|].
    intros c' Hc' Hne. rewrite !oracle_riverbank_row by exact Hc'.
    rewrite Hst, Z.lor_spec, Z.pow2_bits_false by lia.
    rewrite orb_false_r. reflexivity.
  - intros Hfatal. rewrite <- H7 in Hfatal. split.
    + apply (fatal_move_fills_no_hole g). exact Hfatal.
    + rewrite forward_lives.
      destruct (Z.eqb_spec (oracle_result (int8 (frog_row g + 1)) (frog_column g) g) 0);
        [contradiction | reflexivity].
Qed.

Lemma landing_fills_the_hole_witness :
  (bank_ok frog_before_hole /\ frog_row frog_before_hole = 6 /\
   0 <= frog_column frog_before_hole <= 15 /\ frog_dead frog_before_hole = 0 /\
   oracle_result RIVERBANK_ROW 1 frog_before_hole = 0) /\
  oracle_result RIVERBANK_ROW 1 (exec move_frog_forward frog_before_hole) = 1.
Proof.
  assert (Hok : bank_ok frog_before_hole)
    by (vm_compute; repeat split; congruence).
  assert (Hcol : 0 <= frog_column frog_before_hole <= 15)
    by (vm_compute; split; congruence).
  assert (Hsafe : oracle_result RIVERBANK_ROW 1 frog_before_hole = 0)
    by reflexivity.
  split;
    [split; [exact Hok | split; [reflexivity | split; [exact Hcol|]]];
     split; [reflexivity | exact Hsafe]|].
  destruct (landing_fills_the_hole frog_before_hole Hok eq_refl Hcol eq_refl)
    as [Hland _].
  apply (Hland Hsafe).
Defined.

(** X5: [is_riverbank_full] answers 1 exactly when the oracle refuses a
    landing in every one of the 16 columns of row 7. *)
Theorem full_means_no_landing_left g :
  0 <= riverbank_status g < 2 ^ 16 ->
  (eval is_riverbank_full g = 1 <->
   forall c, 0 <= c <= 15 -> oracle_result RIVERBANK_ROW c g = 1) /\
  (eval is_riverbank_full g = 0 \/ eval is_riverbank_full g = 1).
Proof.
  intros Hs. unfold is_riverbank_full.
  cbv beta iota zeta delta [eval bind gets ret fst snd].
  change 0xFFFF with (Z.ones 16).
  split; [|destruct (_ =? _); [right | left]; reflexivity].
  destruct (Z.eqb_spec (riverbank_status g) (Z.ones 16)) as [Heq | Hne]; split.
  - intros _ c Hc. rewrite oracle_riverbank_row by exact Hc.
    rewrite Heq, Z.ones_spec_low by lia. reflexivity.
  - reflexivity.
  - intros H. discriminate H.
  - intros Hall. exfalso. apply Hne. apply Z.bits_inj'. intros n Hn.
    destruct (Z.lt_ge_cases n 16) as [Hlow | Hhigh].
    + rewrite Z.ones_spec_low by lia.
      specialize (Hall n ltac:(lia)).
      rewrite oracle_riverbank_row in Hall by lia.
      destruct (Z.testbit (riverbank_status g) n); [reflexivity | discriminate Hall].
    + rewrite Z.ones_spec_high by lia. apply high_bits_clear; assumption.
Qed.

Lemma full_means_no_landing_left_witness :
  0 <= riverbank_status frog_before_hole < 2 ^ 16 /\
  (eval is_riverbank_full frog_before_hole = 0 \/
   eval is_riverbank_full frog_before_hole = 1).
Proof.
  assert (Hs : 0 <= riverbank_status frog_before_hole < 2 ^ 16)
    by (vm_compute; split; congruence).
  split; [exact Hs|].
  apply (full_means_no_landing_left frog_before_hole Hs).
Defined.

(** ** The life LEDs *)

Ltac lives_cases :=
  repeat match goal with
  | E : (_ =? _) = true |- _ => apply Z.eqb_eq in E
  | E : (_ =? _) = false |- _ => apply Z.eqb_neq in E
  end.

(** X6: after a life decrement from 1 to 4 lives, after a bonus life and
    after [initialise_game] the port shows one lit LED per life
    ([PORTA] = 2^lives - 1). *)
Theorem leds_follow_lives g :
  (1 <= frog_lives g <= 4 -> leds_show_lives (exec decrement_lives g)) /\
  (leds_show_lives g -> leds_show_lives (exec increment_lives g)) /\
  leds_show_lives (exec initialise_game g).
Proof.
  destruct g as [r c d l dcr ld gd lp gp b st pa sc].
  unfold leds_show_lives, decrement_lives, increment_lives, initialise_game,
    init_led, put_frog_in_start_position.
  cbn [frog_lives PORTA]. split; [|split]; try intros H.
  - run_game; lives_cases; subst; try reflexivity.
    assert (l = 1) as -> by lia. reflexivity.
  - run_game; lives_cases; subst; try reflexivity; try exact H.
  - run_game. reflexivity.
Qed.

Lemma leds_follow_lives_witness :
  1 <= frog_lives four_lives <= 4 /\
  leds_show_lives (exec decrement_lives four_lives).
Proof.
  assert (H : 1 <= frog_lives four_lives <= 4)
    by (vm_compute; split; congruence).
  split; [exact H|]. exact (proj1 (leds_follow_lives four_lives) H).
Defined.

(** X7: while the LEDs show the lives, a bonus life followed by a life
    decrement gives back the very same state for 1 to 3 lives, and so
    does a decrement followed by a bonus life for 2 to 4 lives. *)
Theorem bonus_life_round_trip g :
  leds_show_lives g ->
  (1 <= frog_lives g <= 3 -> exec decrement_lives (exec increment_lives g) = g) /\
  (2 <= frog_lives g <= 4 -> exec increment_lives (exec decrement_lives g) = g).
Proof.
  destruct g as [r c d l dcr ld gd lp gp b st pa sc].
  unfold leds_show_lives. cbn [frog_lives PORTA]. intros ->.
  split; intros Hl.
  - assert (l = 1 \/ l = 2 \/ l = 3) as [-> | [-> | ->]] by lia; reflexivity.
  - assert (l = 2 \/ l = 3 \/ l = 4) as [-> | [-> | ->]] by lia; reflexivity.
Qed.

Lemma bonus_life_round_trip_witness :
  let g := exec initialise_game power_on in
  (leds_show_lives g /\ 1 <= frog_lives g <= 3) /\
  exec decrement_lives (exec increment_lives g) = g.
Proof.
  intros g.
  assert (Hleds : leds_show_lives g) by reflexivity.
  assert (Hl : 1 <= frog_lives g <= 3) by (vm_compute; split; congruence).
  split; [split; assumption|].
  exact (proj1 (bonus_life_round_trip g Hleds) Hl).
Defined.

(** ** A full turn of a lane or channel *)

Lemma scroll_river_channel_repeat n channel d g :
  log_position (exec (repeat_m n (scroll_river_channel channel d)) g) =
  upd (log_position g) channel
    (Nat.iter n (fun q => scrolled LOG_DATA_WIDTH q d)
       (idx (log_position g) channel)).
Proof.
  revert g. induction n as [|n IH]; intros g.
  - simpl. symmetry. apply upd_idx.
  - change (repeat_m (S n) (scroll_river_channel channel d))
      with (scroll_river_channel channel d ;;
            repeat_m n (scroll_river_channel channel d)).
    rewrite exec_seq, IH.
    destruct (scroll_river_channel_offsets channel d g) as (-> & _).
    destruct (Nat.lt_ge_cases (Z.to_nat channel) (length (log_position g)))
      as [Hin | Hout].
    + rewrite idx_upd_same by exact Hin. rewrite upd_upd.
      rewrite (Nat.iter_succ_r n (fun q => scrolled LOG_DATA_WIDTH q d)).
      reflexivity.
    + unfold upd. rewrite !list_insert_ge by (rewrite ?length_insert; lia).
      reflexivity.
Qed.

Lemma full_cycle width p :
  0 < width -> 0 <= p < width ->
  (p - width) mod width = p /\ (p + width) mod width = p.
Proof.
  intros Hw Hp. split.
  - symmetry. apply Z.mod_unique with (q := -1); lia.
  - symmetry. apply Z.mod_unique with (q := 1); lia.
Qed.

(** X8: 64 rotations of a traffic lane in one direction, and 32
    rotations of a river channel, bring all offsets back to where they
    were: the traffic and the logs repeat after a full turn. *)
Theorem full_turn_restores_offsets g lane channel d :
  offsets_in_range g -> d = 1 \/ d = -1 ->
  lane_position (exec (repeat_m 64 (scroll_vehicle_lane lane d)) g) =
    lane_position g /\
  log_position (exec (repeat_m 32 (scroll_river_channel channel d)) g) =
    log_position g.
Proof.
  intros Hinv Hd.
  rewrite scroll_vehicle_lane_repeat, scroll_river_channel_repeat.
  pose proof (lane_offset_range g lane Hinv) as Hp.
  pose proof (log_offset_range g channel Hinv) as Hq.
  unfold LANE_DATA_WIDTH, LOG_DATA_WIDTH.
  destruct (full_cycle 64 _ ltac:(lia) Hp) as [H64m H64p].
  destruct (full_cycle 32 _ ltac:(lia) Hq) as [H32m H32p].
  destruct Hd as [-> | ->].
  - rewrite !scrolled_right_iter by lia.
    change (Z.of_nat 64) with 64. change (Z.of_nat 32) with 32.
    rewrite H64m, H32m, !upd_idx. split; reflexivity.
  - rewrite !scrolled_left_iter by lia.
    change (Z.of_nat 64) with 64. change (Z.of_nat 32) with 32.
    rewrite H64p, H32p, !upd_idx. split; reflexivity.
Qed.

Lemma full_turn_restores_offsets_witness :
  let g := exec initialise_game power_on in
  (offsets_in_range g /\ (1 = 1 \/ 1 = -1)) /\
  lane_position (exec (repeat_m 64 (scroll_vehicle_lane 0 1)) g) =
  lane_position g.
Proof.
  intros g.
  assert (Hinv : offsets_in_range g)
    by (split; repeat constructor; vm_compute; congruence).
  split; [split; [exact Hinv | left; reflexivity]|].
  apply (full_turn_restores_offsets g 0 0 1 Hinv). left. reflexivity.
Defined.

(** ** The riverbank masks under every function of game.c *)

Lemma pattern_is_bank level :
  0 <= riverbank_by_level level < 2 ^ 16.
Proof.
  unfold riverbank_by_level.
  destruct (level mod 2 =? 0); [|destruct (level mod 3 =? 0)];
    vm_compute; split; congruence.
Qed.

Lemma bank_ok_keepers :
  preserves bank_ok decrement_lives /\
  preserves bank_ok increment_lives /\
  preserves bank_ok put_frog_in_start_position /\
  preserves bank_ok init_led /\
  (forall lv, preserves bank_ok (initialise_life lv)) /\
  (forall lane d, preserves bank_ok (scroll_vehicle_lane lane d)) /\
  (forall ch d, preserves bank_ok (scroll_river_channel ch d)).
Proof.
  assert (Hd : preserves bank_ok decrement_lives)
    by (unfold decrement_lives; preserve; other_variable).
  assert (Hp : preserves bank_ok put_frog_in_start_position)
    by (unfold put_frog_in_start_position; preserve; other_variable).
  split; [exact Hd|].
  split; [unfold increment_lives; preserve; other_variable|].
  split; [exact Hp|].
  split; [unfold init_led; other_variable|].
  split; [|split].
  - intros lv. unfold initialise_life, reset_positions.
    preserve; try other_variable; exact Hp.
  - intros lane d. unfold scroll_vehicle_lane.
    preserve; try other_variable; exact Hd.
  - intros ch d. unfold scroll_river_channel.
    preserve; try other_variable; exact Hd.
Qed.

Lemma moves_keep_bank :
  preserves bank_ok move_frog_forward /\
  preserves bank_ok move_frog_backward /\
  preserves bank_ok move_frog_to_left /\
  preserves bank_ok move_frog_to_right.
Proof.
  destruct bank_ok_keepers as (Hd & _).
  unfold move_frog_forward, move_frog_backward, move_frog_to_left,
    move_frog_to_right, add_to_score.
  split; [|split; [|split]];
    preserve; try other_variable;
    first [exact Hd | apply record_arrival_keeps_bank].
Qed.

Lemma initialise_game_bank g : bank_ok (exec initialise_game g).
Proof.
  destruct g. unfold initialise_game, init_led, put_frog_in_start_position.
  unfold bank_ok. run_game. vm_compute. repeat split; congruence.
Qed.

Lemma initialise_level_bank level g : bank_ok (exec (initialise_level level) g).
Proof.
  unfold bank_ok.
  destruct (initialise_level_riverbank level g) as [-> ->].
  pose proof (pattern_is_bank level).
  repeat split; try lia. apply Z.land_diag.
Qed.

End GameExtras.

Module TimerExtras.
Import Timer0.
Import TimerFacts.

#[local] Existing Instance same32_equivalence.
#[local] Existing Instance same32_add.
#[local] Existing Instance same32_sub.
#[local] Existing Instance same32_conv.

(** ** When the countdown runs out *)

(** What a tick does to the flags. *)
Lemma tick_flags t :
  let t' := exec ISR_TIMER0_COMPA t in
  let out :=
    negb (countdown_inited t =? 0)
    && (uint32 (TOTAL_TIME - played_time t') <=? 0) in
  is_paused t' = is_paused t /\
  times_up t' = (if out then 1 else times_up t) /\
  countdown_inited t' = (if out then 0 else countdown_inited t).
Proof.
  cbv zeta. rewrite <- time_remaining_after_tick.
  destruct t as [ticks inited up fs sp total pt paused].
  unfold ISR_TIMER0_COMPA, amount_time_paused, time_remaining, get_current_time.
  run_timer.
  destruct (paused =? 0) eqn:Hp; run_timer;
    match goal with
    | |- context [if ?c then _ else _] => destruct c eqn:Hc
    end; run_timer; rewrite ?Hp; run_timer; rewrite ?Hc;
    repeat split; reflexivity.
Qed.

Lemma toggle_flags t :
  let t' := exec countdown_pause t in
  is_paused t' = (if is_paused t =? 0 then 1 else 0) /\
  times_up t' = times_up t /\ countdown_inited t' = countdown_inited t.
Proof.
  destruct t as [ticks inited up fs sp total pt paused].
  unfold countdown_pause, get_current_time. run_timer.
  destruct (paused =? 0); run_timer; repeat split; reflexivity.
Qed.

Lemma init_countdown_counting t :
  is_paused t = 0 -> counting 0 false (exec init_countdown t).
Proof.
  destruct t as [ticks inited up fs sp total pt paused]. simpl. intros ->.
  unfold counting, played_time, init_countdown, amount_time_paused,
    get_current_time.
  run_timer. change (0 =? 0) with true. run_timer.
  repeat split; try reflexivity; try (unfold TOTAL_TIME; lia).
  transitivity (uint32 0); [modulo_2_32 | reflexivity].
Qed.

Lemma tick_counting k b t :
  counting k b t ->
  let t' := exec ISR_TIMER0_COMPA t in
  let k' := if b then k else k + 1 in
  (k' < TOTAL_TIME -> counting k' b t') /\
  (k' = TOTAL_TIME -> expired t').
Proof.
  intros (Hp & Hi & Hu & Hk & Hr). cbv zeta.
  destruct (tick_flags t) as (Hp' & Hu' & Hi').
  assert (Hplayed : played_time (exec ISR_TIMER0_COMPA t) = if b then k else k + 1).
  { destruct b.
    - rewrite tick_while_paused by (rewrite Hp; discriminate). exact Hk.
    - rewrite tick_while_running by exact Hp. rewrite Hk.
      unfold uint32. apply Z.mod_small. unfold TOTAL_TIME in Hr. lia. }
  rewrite Hplayed, Hi in Hu', Hi'. simpl in Hu', Hi'.
  unfold TOTAL_TIME in *.
  split; intros Hk'.
  - assert (Hgo : (uint32 (15000 - (if b then k else k + 1)) <=? 0) = false).
    { apply Z.leb_gt. unfold uint32. rewrite Z.mod_small; destruct b; lia. }
    rewrite Hgo in Hu', Hi'.
    unfold counting, TOTAL_TIME. rewrite Hp', Hu', Hi', Hplayed, Hp, Hu.
    repeat split; try reflexivity; destruct b; lia.
  - rewrite Hk' in Hu', Hi'. simpl in Hu', Hi'.
    split; assumption.
Qed.

Lemma toggle_counting k b t :
  counting k b t -> counting k (negb b) (exec countdown_pause t).
Proof.
  intros (Hp & Hi & Hu & Hk & Hr).
  destruct (toggle_flags t) as (Hp' & Hu' & Hi').
  unfold counting.
  rewrite Hp', Hu', Hi', countdown_pause_keeps_played_time, Hp.
  repeat split; try assumption; try apply Hr. destruct b; reflexivity.
Qed.

Lemma expired_stays es t : expired t -> expired (exec (timer_run es) t).
Proof.
  revert t. induction es as [|e es IH]; intros t H; [exact H|].
  simpl. rewrite exec_bind_unit. apply IH.
  destruct H as [Hu Hi]. destruct e; simpl.
  - destruct (tick_flags t) as (_ & Hu' & Hi'). rewrite Hi in Hu', Hi'.
    simpl in Hu', Hi'. split; congruence.
  - destruct (toggle_flags t) as (_ & Hu' & Hi'). split; congruence.
Qed.

Lemma unpaused_ticks_nonneg b es : 0 <= unpaused_ticks b es.
Proof.
  revert b. induction es as [|e es IH]; intros b; simpl; [lia|].
  destruct e; [|apply IH]. specialize (IH b). destruct b; lia.
Qed.

Lemma counting_run es :
  forall k b t, counting k b t ->
  let t' := exec (timer_run es) t in
  (k + unpaused_ticks b es < TOTAL_TIME -> times_up t' = 0) /\
  (TOTAL_TIME <= k + unpaused_ticks b es -> times_up t' = 1).
Proof.
  induction es as [|e es IH]; intros k b t Hc; cbv zeta.
  - simpl. destruct Hc as (_ & _ & Hu & _ & Hr). split; intros H; [exact Hu | lia].
  - simpl timer_run. rewrite exec_bind_unit.
    pose proof (unpaused_ticks_nonneg b es) as Hn.
    pose proof (unpaused_ticks_nonneg (negb b) es) as Hn'.
    destruct e; simpl timer_step; simpl unpaused_ticks.
    + destruct (tick_counting k b t Hc) as [Hgo Hout].
      assert (Hr : 0 <= k < TOTAL_TIME) by apply Hc.
      destruct (Z.lt_ge_cases (if b then k else k + 1) TOTAL_TIME) as [Hlt | Hge].
      * specialize (IH _ b _ (Hgo Hlt)). cbv zeta in IH.
        destruct b; split; intros H; apply IH; lia.
      * assert (Heq : (if b then k else k + 1) = TOTAL_TIME) by (destruct b; lia).
        split; intros H; [destruct b; lia|].
        apply (expired_stays es _ (Hout Heq)).
    + specialize (IH _ (negb b) _ (toggle_counting k b t Hc)). exact IH.
Qed.

(** X10: after [init_countdown], whatever the sequence of timer ticks
    and pause/resume requests, the time is up exactly when 15000 ticks
    have fallen outside the pauses. *)
Theorem time_is_up_after_15000_ms_of_play t es :
  is_paused t = 0 ->
  let t' := exec (timer_run es) (exec init_countdown t) in
  (eval is_time_up t' = 1 <-> TOTAL_TIME <= unpaused_ticks false es) /\
  (eval is_time_up t' = 0 <-> unpaused_ticks false es < TOTAL_TIME).
Proof.
  intros Hp. cbv zeta.
  destruct (counting_run es 0 false _ (init_countdown_counting t Hp)) as [Hlt Hge].
  cbv zeta in Hlt, Hge. rewrite Z.add_0_l in Hlt, Hge.
  change (eval is_time_up ?x) with (times_up x).
  destruct (Z.lt_ge_cases (unpaused_ticks false es) TOTAL_TIME) as [H | H].
  - rewrite (Hlt H). split; split; intros H'; first [discriminate H' | lia].
  - rewrite (Hge H). split; split; intros H'; first [discriminate H' | lia].
Qed.

Lemma time_is_up_after_15000_ms_of_play_witness :
  is_paused power_on = 0 /\
  eval is_time_up
    (exec (timer_run [TimerTick; PauseToggle; TimerTick; PauseToggle])
       (exec init_countdown power_on)) = 0.
Proof.
  split; [reflexivity|].
  apply (time_is_up_after_15000_ms_of_play power_on
           [TimerTick; PauseToggle; TimerTick; PauseToggle] eq_refl).
  vm_compute. reflexivity.
Defined.

(** ** Ticks during a pause *)

Lemma tick_clock t :
  let t' := exec ISR_TIMER0_COMPA t in
  clockTicks t' = uint32 (clockTicks t + 1) /\
  start_pause t' = start_pause t /\
  total_time_paused t' = total_time_paused t /\
  frog_start_time t' = frog_start_time t.
Proof.
  destruct t as [ticks inited up fs sp total pt paused].
  unfold ISR_TIMER0_COMPA, amount_time_paused, time_remaining, get_current_time.
  run_timer.
  destruct (paused =? 0) eqn:Hp; run_timer;
    match goal with
    | |- context [if ?c then _ else _] => destruct c eqn:Hc
    end; run_timer; repeat split; reflexivity.
Qed.

Lemma ticks_clock n t :
  let t' := exec (repeat_m n ISR_TIMER0_COMPA) t in
  same32 (clockTicks t') (clockTicks t + Z.of_nat n) /\
  start_pause t' = start_pause t /\
  total_time_paused t' = total_time_paused t /\
  frog_start_time t' = frog_start_time t /\
  is_paused t' = is_paused t.
Proof.
  revert t. induction n as [|n IH]; intros t.
  - split; [|repeat split]. constructor. f_equal.
    change (clockTicks t = clockTicks t + 0). lia.
  - change (repeat_m (S n) ISR_TIMER0_COMPA)
      with (ISR_TIMER0_COMPA ;; repeat_m n ISR_TIMER0_COMPA).
    cbv zeta. rewrite exec_bind_unit.
    destruct (IH (exec ISR_TIMER0_COMPA t)) as (Hc & -> & -> & -> & ->).
    destruct (tick_clock t) as (Hc1 & -> & -> & ->).
    destruct (tick_flags t) as (-> & _).
    split; [|repeat split]. rewrite Hc, Hc1, same32_uint32.
    constructor. f_equal. lia.
Qed.

Lemma elapsed a b n : same32 a (b + n) -> uint32 (a - b) = uint32 n.
Proof.
  intros H. apply same32_eq. rewrite H. constructor. f_equal. lia.
Qed.

Lemma ticks_while_paused n t :
  is_paused t <> 0 ->
  played_time (exec (repeat_m n ISR_TIMER0_COMPA) t) = played_time t.
Proof.
  revert t. induction n as [|n IH]; intros t Hp; [reflexivity|].
  change (repeat_m (S n) ISR_TIMER0_COMPA)
    with (ISR_TIMER0_COMPA ;; repeat_m n ISR_TIMER0_COMPA).
  rewrite exec_bind_unit, IH.
  - apply tick_while_paused. exact Hp.
  - destruct (tick_flags t) as (-> & _). exact Hp.
Qed.

(** ** The seven-segment display *)

Lemma show_digit_in_range i last portd :
  0 <= i <= 9 ->
  exists segments,
    seven_seg !! Z.to_nat i = Some segments /\
    show_digit i last portd = Some (mk_display segments portd last).
Proof.
  intros Hi. unfold show_digit.
  assert (i = 0 \/ i = 1 \/ i = 2 \/ i = 3 \/ i = 4 \/ i = 5 \/ i = 6 \/
          i = 7 \/ i = 8 \/ i = 9) as Hcases by lia.
  repeat (destruct Hcases as [-> | Hcases]); try subst i;
    eexists; split; reflexivity.
Qed.

Lemma digit_select_only p :
  0 <= p < 2 ^ 8 ->
  Z.land (uint8 (Z.lor p (Z.shiftl 1 2))) (Z.lnot 4) = Z.land p (Z.lnot 4) /\
  Z.land (uint8 (Z.land p (Z.lnot (Z.shiftl 1 2)))) (Z.lnot 4)
  = Z.land p (Z.lnot 4).
Proof.
  intros Hp.
  assert (Hall : forallb (fun p =>
            (Z.land (uint8 (Z.lor p (Z.shiftl 1 2))) (Z.lnot 4)
             =? Z.land p (Z.lnot 4))
            && (Z.land (uint8 (Z.land p (Z.lnot (Z.shiftl 1 2)))) (Z.lnot 4)
                =? Z.land p (Z.lnot 4))) (seqZ 0 256) = true)
    by (vm_compute; reflexivity).
  rewrite forallb_forall in Hall.
  specialize (Hall p). rewrite <- list_elem_of_In, elem_of_seqZ in Hall.
  apply andb_true_iff in Hall; [|lia].
  destruct Hall as [H1 H2]. apply Z.eqb_eq in H1, H2. split; assumption.
Qed.

(** X17: the interrupt handler never reads outside the ten entries of
    [seven_seg]: for every 32-bit [time_remaining], every value of
    [countdown_inited] and every display state its display branches
    produce a display state, and they leave every bit of [PORTD] but the
    digit-select bit 2 as it was. *)
Theorem display_stays_inside_seven_seg inited time_remaining d :
  0 <= time_remaining < 2 ^ 32 ->
  0 <= PORTD d < 2 ^ 8 ->
  exists d',
    ISR_display inited time_remaining d = Some d' /\
    Z.land (PORTD d') (Z.lnot 4) = Z.land (PORTD d) (Z.lnot 4).
Proof.
  intros Htr Hpd. unfold ISR_display.
  destruct (digit_select_only (PORTD d) Hpd) as [Hleft Hright].
  set (left := uint8 (Z.lor (PORTD d) (Z.shiftl 1 2))) in *.
  set (right := uint8 (Z.land (PORTD d) (Z.lnot (Z.shiftl 1 2)))) in *.
  cbv zeta.
  repeat match goal with
  | |- context [if ?c then _ else _] =>
      lazymatch c with
      | context [if _ then _ else _] => fail
      | _ => destruct c eqn:?
      end
  end;
  repeat match goal with
  | E : _ && _ = true |- _ => apply andb_true_iff in E; destruct E
  | E : (_ <? _) = true |- _ => apply Z.ltb_lt in E
  | E : (_ <=? _) = true |- _ => apply Z.leb_le in E
  | E : (_ >=? _) = true |- _ => rewrite Z.geb_leb in E; apply Z.leb_le in E
  | E : (_ >? _) = true |- _ => rewrite Z.gtb_ltb in E; apply Z.ltb_lt in E
  end;
  try (eexists; split; [reflexivity | first [reflexivity | assumption]]);
  match goal with
  | |- exists _, show_digit ?i ?l ?p = _ /\ _ =>
      let Hi := fresh in
      assert (Hi : 0 <= i <= 9);
      [| destruct (show_digit_in_range i l p Hi) as (sg & _ & ->);
         eexists; split; [reflexivity | first [reflexivity | assumption]]]
  end.
  all: try lia.
  all: try (pose proof (Z.mod_pos_bound (time_remaining / 1000) 10); lia).
  all: split; [apply Z.div_pos; lia | apply Z.lt_succ_r, Z.div_lt_upper_bound; lia].
Qed.

Lemma display_stays_inside_seven_seg_witness :
  (0 <= 9500 < 2 ^ 32 /\ 0 <= PORTD (mk_display 0 0 0) < 2 ^ 8) /\
  exists d',
    ISR_display 1 9500 (mk_display 0 0 0) = Some d' /\
    Z.land (PORTD d') (Z.lnot 4) = Z.land (PORTD (mk_display 0 0 0)) (Z.lnot 4).
Proof.
  assert (H1 : 0 <= 9500 < 2 ^ 32) by (vm_compute; split; congruence).
  assert (H2 : 0 <= PORTD (mk_display 0 0 0) < 2 ^ 8)
    by (vm_compute; split; congruence).
  split; [split; assumption|].
  exact (display_stays_inside_seven_seg 1 9500 (mk_display 0 0 0) H1 H2).
Defined.

Lemma digit_select_bit p :
  0 <= p < 2 ^ 8 ->
  Z.testbit (uint8 (Z.lor p (Z.shiftl 1 2))) 2 = true /\
  Z.testbit (uint8 (Z.land (uint8 (Z.lor p (Z.shiftl 1 2)))
                      (Z.lnot (Z.shiftl 1 2)))) 2 = false.
Proof.
  intros Hp.
  assert (Hall : forallb (fun p =>
            Z.testbit (uint8 (Z.lor p (Z.shiftl 1 2))) 2
            && negb (Z.testbit
                       (uint8 (Z.land (uint8 (Z.lor p (Z.shiftl 1 2)))
                                 (Z.lnot (Z.shiftl 1 2)))) 2))
            (seqZ 0 256) = true)
    by (vm_compute; reflexivity).
  rewrite forallb_forall in Hall.
  specialize (Hall p). rewrite <- list_elem_of_In, elem_of_seqZ in Hall.
  apply andb_true_iff in Hall; [|lia].
  destruct Hall as [H1 H2]. apply negb_true_iff in H2. split; assumption.
Qed.

(** X18: with 10 to 15 seconds left the handler shows the time on two
    digits in turn: from [last_digit_shown] = 0 one tick selects the
    left digit (bit 2 of [PORTD] set) and shows a 1, the next tick
    selects the right digit and shows the seconds above ten, and
    [last_digit_shown] is 0 again. *)
Theorem two_digits_show_the_seconds inited tr1 tr2 d :
  inited <> 0 -> last_digit_shown d = 0 -> 0 <= PORTD d < 2 ^ 8 ->
  10000 <= tr1 <= 15000 -> 10000 <= tr2 <= 15000 ->
  exists d1 d2,
    ISR_display inited tr1 d = Some d1 /\
    ISR_display inited tr2 d1 = Some d2 /\
    Z.testbit (PORTD d1) 2 = true /\ seven_seg !! 1%nat = Some (PORTC d1) /\
    Z.testbit (PORTD d2) 2 = false /\
    seven_seg !! Z.to_nat (tr2 / 1000 - 10) = Some (PORTC d2) /\
    last_digit_shown d2 = 0.
Proof.
  intros Hi Hlast Hpd H1 H2. apply Z.eqb_neq in Hi.
  destruct (digit_select_bit (PORTD d) Hpd) as [Hleft Hright].
  destruct d as [pc pd last]. cbn [last_digit_shown PORTD] in *. subst last.
  set (left := uint8 (Z.lor pd (Z.shiftl 1 2))) in *.
  set (right := uint8 (Z.land left (Z.lnot (Z.shiftl 1 2)))) in *.
  assert (Hfirst : ISR_display inited tr1 (mk_display pc pd 0)
                   = Some (mk_display 6 left 1)).
  { unfold ISR_display. cbn [last_digit_shown PORTD PORTC]. rewrite Hi.
    change (0 =? 0) with true. cbn [negb andb].
    replace (tr1 <=? 0) with false by (symmetry; apply Z.leb_gt; lia).
    replace (tr1 <? 10000) with false by (symmetry; apply Z.ltb_ge; lia).
    replace (tr1 <=? 15000) with true by (symmetry; apply Z.leb_le; lia).
    replace (tr1 >=? 10000) with true
      by (symmetry; rewrite Z.geb_leb; apply Z.leb_le; lia).
    reflexivity. }
  assert (Hsecond : exists segments,
            seven_seg !! Z.to_nat (tr2 / 1000 - 10) = Some segments /\
            ISR_display inited tr2 (mk_display 6 left 1)
            = Some (mk_display segments right 0)).
  { unfold ISR_display. cbn [last_digit_shown PORTD PORTC]. rewrite Hi.
    change (1 =? 0) with false. change (1 =? 1) with true. cbn [negb andb].
    replace (tr2 <=? 0) with false by (symmetry; apply Z.leb_gt; lia).
    replace (tr2 <=? 15000) with true by (symmetry; apply Z.leb_le; lia).
    replace (tr2 >=? 10000) with true
      by (symmetry; rewrite Z.geb_leb; apply Z.leb_le; lia).
    cbn [negb andb].
    assert (Hq : 10 <= tr2 / 1000 <= 15)
      by (split; [apply Z.div_le_lower_bound; lia
                 | apply Z.lt_succ_r, Z.div_lt_upper_bound; lia]).
    assert (tr2 / 1000 = 10 \/ tr2 / 1000 = 11 \/ tr2 / 1000 = 12 \/
            tr2 / 1000 = 13 \/ tr2 / 1000 = 14 \/ tr2 / 1000 = 15)
      as Hcases by lia.
    repeat (destruct Hcases as [-> | Hcases]); try rewrite Hcases;
      eexists; split; reflexivity. }
  destruct Hsecond as (segments & Hseg & Hsecond).
  exists (mk_display 6 left 1), (mk_display segments right 0).
  cbn [PORTD PORTC last_digit_shown].
  repeat split; assumption.
Qed.

Lemma two_digits_show_the_seconds_witness :
  exists d1 d2,
    ISR_display 1 14999 (mk_display 0 0 0) = Some d1 /\
    ISR_display 1 14998 d1 = Some d2 /\
    Z.testbit (PORTD d1) 2 = true /\ seven_seg !! 1%nat = Some (PORTC d1) /\
    Z.testbit (PORTD d2) 2 = false /\
    seven_seg !! Z.to_nat (14998 / 1000 - 10) = Some (PORTC d2) /\
    last_digit_shown d2 = 0.
Proof.
  apply (two_digits_show_the_seconds 1 14999 14998 (mk_display 0 0 0)).
  - discriminate.
  - reflexivity.
  - vm_compute. split; congruence.
  - lia.
  - lia.
Defined.

End TimerExtras.

Module ProjectExtras.
Import Project.
Import GameFacts.
Import GameExtras.

(** ** Properties of the game state over every run *)

(** [play_game] reaches the variables of game.c only through the
    functions of game.c: a property that those functions keep is kept by
    every run. *)
Section GameInvariant.
Context (P : Game.game -> Prop).
Context (Hdecrement : preserves P Game.decrement_lives).
Context (Hlife : forall lv, preserves P (Game.initialise_life lv)).
Context (Hlevel : forall lv, preserves P (Game.initialise_level lv)).
Context (Hstart : preserves P Game.put_frog_in_start_position).
Context (Hforward : preserves P Game.move_frog_forward).
Context (Hbackward : preserves P Game.move_frog_backward).
Context (Hleft : preserves P Game.move_frog_to_left).
Context (Hright : preserves P Game.move_frog_to_right).
Context (Hlane : forall lane d, preserves P (Game.scroll_vehicle_lane lane d)).
Context (Hchannel : forall ch d, preserves P (Game.scroll_river_channel ch d)).

Let Pw (w : world) : Prop := P (game_of w).

Lemma in_game_lifts {A} (m : Game.G A) :
  preserves P m -> preserves Pw (in_game m).
Proof.
  intros Hm [g t p] H. unfold Pw, exec, in_game in *. simpl in *.
  specialize (Hm g H). unfold exec in Hm. destruct (m g). exact Hm.
Qed.

Lemma in_timer_frames {A} (m : Timer0.T A) : preserves Pw (in_timer m).
Proof.
  intros [g t p] H. unfold Pw, exec, in_timer in *. simpl in *.
  destruct (m t). exact H.
Qed.

Lemma here_frames {A} (m : M project A) : preserves Pw (here m).
Proof.
  intros [g t p] H. unfold Pw, exec, here in *. simpl in *.
  destruct (m p). exact H.
Qed.

Lemma getters_keep :
  preserves P Game.is_frog_dead /\ preserves P Game.is_decremented /\
  preserves P Game.is_riverbank_full /\
  preserves P Game.frog_has_reached_riverbank.
Proof.
  unfold Game.is_frog_dead, Game.is_decremented, Game.is_riverbank_full,
    Game.frog_has_reached_riverbank.
  split; [|split; [|split]]; preserve.
Qed.

Ltac lift :=
  repeat first
    [ apply in_timer_frames
    | apply here_frames
    | apply in_game_lifts; first [assumption | solve [auto] | apply getters_keep]
    | apply preserves_ret
    | match goal with
      | |- preserves _ (if ?b then _ else _) => destruct b
      | |- preserves _ (when _ _) => apply preserves_when
      | |- preserves _ (bind _ _) => apply preserves_bind; [|intros ?]
      end ].

Lemma pause_game_lifts : preserves Pw pause_game.
Proof. unfold pause_game. lift. Qed.

Lemma level_complete_lifts : preserves Pw level_complete.
Proof. unfold level_complete. lift. Qed.

Lemma life_and_level_checks_lifts : preserves Pw life_and_level_checks.
Proof.
  unfold life_and_level_checks.
  apply preserves_bind; [|intros _].
  - apply preserves_bind; [lift | intros up].
    destruct (negb (up =? 0)); lift. apply level_complete_lifts.
  - lift.
Qed.

Lemma process_input_lifts r : preserves Pw (process_input r).
Proof.
  unfold process_input. apply preserves_bind; [lift | intros p].
  destruct r; lift. apply pause_game_lifts.
Qed.

Lemma scroll_triggers_lifts : preserves Pw scroll_triggers.
Proof. unfold scroll_triggers, due. lift. Qed.

Lemma step_lifts e : preserves Pw (step e).
Proof.
  destruct e as [|r]; simpl; [lift|].
  apply preserves_bind; [lift | intros dead]. apply preserves_when.
  unfold play_game_turn.
  apply preserves_bind; [apply life_and_level_checks_lifts | intros _].
  apply preserves_bind; [apply process_input_lifts | intros _].
  apply scroll_triggers_lifts.
Qed.

Lemma run_lifts es : preserves Pw (run es).
Proof.
  induction es as [|e es IH]; simpl.
  - apply preserves_ret.
  - apply preserves_bind; [apply step_lifts | intros _; exact IH].
Qed.

(** From power-on: [new_game], the start of [play_game], then any run. *)
Lemma holds_in_every_run es :
  P Game.power_on ->
  preserves P Game.initialise_game -> preserves P Game.init_led ->
  P (game_of (exec (run es) fresh_game)).
Proof.
  intros H0 Hgame Hled.
  apply (run_lifts es fresh_game).
  apply (preserves_bind Pw new_game (fun _ => play_game_start)).
  - unfold new_game. lift.
  - intros _. unfold play_game_start. lift.
  - exact H0.
Qed.

End GameInvariant.

(** X9: in every run of the program, from power-on through [new_game]
    and any sequence of loop turns and timer ticks, both riverbank masks
    stay 16 bits wide and every edge bit of [riverbank] is set in
    [riverbank_status]. *)
Theorem bank_ok_always es :
  Game.bank_ok (game_of (exec (run es) fresh_game)).
Proof.
  destruct bank_ok_keepers as (Hd & _ & Hp & Hled & Hlife & Hlane & Hch).
  destruct moves_keep_bank as (Hf & Hb & Hl & Hr).
  apply holds_in_every_run; try assumption.
  - intros lv g _. apply initialise_level_bank.
  - vm_compute. repeat split; congruence.
  - intros g _. apply initialise_game_bank.
Qed.

(** ** The two pause flags *)

Lemma in_game_sync {A} (m : Game.G A) : preserves flags_in_sync (in_game m).
Proof.
  intros [g t p] H. unfold flags_in_sync, exec, in_game in *. simpl in *.
  destruct (m g). exact H.
Qed.

Lemma in_timer_sync {A} (m : Timer0.T A) :
  (forall t, Timer0.is_paused (exec m t) = Timer0.is_paused t) ->
  preserves flags_in_sync (in_timer m).
Proof.
  intros Hm [g t p] H. unfold flags_in_sync, exec, in_timer in *. simpl in *.
  specialize (Hm t). unfold exec in Hm. destruct (m t). simpl in *.
  rewrite Hm. exact H.
Qed.

Lemma here_sync {A} (m : M project A) :
  (forall p, paused (exec m p) = paused p) ->
  preserves flags_in_sync (here m).
Proof.
  intros Hm [g t p] H. unfold flags_in_sync, exec, here in *. simpl in *.
  specialize (Hm p). unfold exec in Hm. destruct (m p). simpl in *.
  rewrite Hm. exact H.
Qed.

Lemma pause_game_sync : preserves flags_in_sync pause_game.
Proof.
  intros [g t p] [Heq Hb].
  destruct p as [tp bp pa ct lm r0 r1 r2 v0 v1 lv su].
  destruct t as [ticks inited up fs sp total pt ip].
  unfold flags_in_sync in *. simpl in Heq, Hb. subst ip.
  destruct Hb as [-> | ->]; vm_compute; split; auto.
Qed.

Ltac sync :=
  repeat first
    [ apply in_game_sync
    | apply pause_game_sync
    | apply in_timer_sync; intros ?;
      first [reflexivity | apply TimerExtras.tick_flags]
    | apply here_sync; intros ?; reflexivity
    | apply preserves_ret
    | match goal with
      | |- preserves _ (if ?b then _ else _) => destruct b
      | |- preserves _ (when _ _) => apply preserves_when
      | |- preserves _ (bind _ _) => apply preserves_bind; [|intros ?]
      | |- preserves _ (match ?r with NoRequest => _ | _ => _ end) => destruct r
      end ].

Lemma step_sync e : preserves flags_in_sync (step e).
Proof.
  destruct e as [|r]; simpl; [sync|].
  unfold play_game_turn, life_and_level_checks, level_complete, process_input,
    scroll_triggers, due.
  sync.
Qed.

(** X11: in every run of the program the pause flag of the main loop
    and the pause flag of the countdown agree and are 0 or 1: the game
    and its countdown are always paused together. *)
Theorem pause_flags_always_agree es :
  flags_in_sync (exec (run es) fresh_game).
Proof.
  assert (Hrun : forall l, preserves flags_in_sync (run l)).
  { induction l as [|e l IH]; simpl.
    - apply preserves_ret.
    - apply preserves_bind; [apply step_sync | intros _; exact IH]. }
  apply Hrun. vm_compute. split; auto.
Qed.

(** ** Pausing *)

Lemma set_timer_of_same w : set_timer_of (timer_of w) w = w.
Proof. destruct w; reflexivity. Qed.

Lemma exec_in_timer (m : Timer0.T unit) w :
  exec (in_timer m) w = set_timer_of (exec m (timer_of w)) w.
Proof. unfold exec, in_timer. destruct (m (timer_of w)); reflexivity. Qed.

Lemma exec_repeat_in_timer (m : Timer0.T unit) n w :
  exec (repeat_m n (in_timer m)) w =
  set_timer_of (exec (repeat_m n m) (timer_of w)) w.
Proof.
  revert w. induction n as [|n IH]; intros w; simpl.
  - symmetry. apply set_timer_of_same.
  - rewrite !exec_bind_unit, IH, exec_in_timer. destruct w; reflexivity.
Qed.

(** X12: while the game is paused, the input handling (for any request
    but the pause key) and the five scroll triggers of a loop turn move
    neither the frog nor a lane or channel: they change nothing in the
    program state except [current_time], which takes the clock's
    value. *)
Theorem paused_game_stands_still w r :
  paused (project_of w) <> 0 -> r <> PauseKey ->
  exec (process_input r ;; scroll_triggers) w =
  set_project_of
    (set_current_time (Timer0.clockTicks (timer_of w)) (project_of w)) w.
Proof.
  intros Hp Hr. apply Z.eqb_neq in Hp.
  destruct w as [g t p].
  destruct p as [tp bp pa ct lm r0 r1 r2 v0 v1 lv su].
  simpl in Hp.
  destruct r; try congruence;
    cbv [exec bind ret gets modify when process_input scroll_triggers due
         here in_game in_timer Game.is_frog_dead Timer0.get_current_time
         project_of game_of timer_of set_project_of set_game_of set_timer_of
         paused set_current_time fst snd];
    repeat (rewrite ?Hp; cbv [andb fst snd game_of project_of paused]);
    reflexivity.
Qed.

Lemma paused_game_stands_still_witness :
  exec (process_input Forward ;; scroll_triggers) paused_fresh_game =
  set_project_of
    (set_current_time (Timer0.clockTicks (timer_of paused_fresh_game))
       (project_of paused_fresh_game)) paused_fresh_game.
Proof.
  apply (paused_game_stands_still paused_fresh_game Forward).
  - vm_compute. discriminate.
  - discriminate.
Defined.

Lemma pause_game_timer w :
  timer_of (exec pause_game w) = exec Timer0.countdown_pause (timer_of w).
Proof.
  destruct w as [g t p].
  destruct p as [tp bp pa ct lm r0 r1 r2 v0 v1 lv su].
  cbv [exec bind ret gets modify pause_game here in_timer
       Timer0.get_current_time project_of game_of timer_of set_project_of
       set_game_of set_timer_of paused fst snd].
  destruct (pa =? 1);
    cbv [exec bind ret gets modify here in_timer project_of game_of timer_of
         set_project_of set_game_of set_timer_of fst snd];
    destruct (Timer0.countdown_pause t); reflexivity.
Qed.

Lemma pause_game_game w : game_of (exec pause_game w) = game_of w.
Proof.
  destruct w as [g t p].
  destruct p as [tp bp pa ct lm r0 r1 r2 v0 v1 lv su].
  cbv [exec bind ret gets modify pause_game here in_timer
       Timer0.get_current_time project_of game_of timer_of set_project_of
       set_game_of set_timer_of paused fst snd].
  destruct (pa =? 1);
    cbv [exec bind ret gets modify here in_timer project_of game_of timer_of
         set_project_of set_game_of set_timer_of fst snd];
    destruct (Timer0.countdown_pause t); reflexivity.
Qed.

Lemma pause_game_project w :
  let p := project_of w in
  let now := Timer0.clockTicks (timer_of w) in
  project_of (exec pause_game w) =
  if paused p =? 1
  then set_paused 0 (set_time_paused (uint32 (now - begin_pause p)) p)
  else set_paused 1 (set_begin_pause now p).
Proof.
  destruct w as [g t p].
  destruct p as [tp bp pa ct lm r0 r1 r2 v0 v1 lv su].
  cbv [exec bind ret gets modify pause_game here in_timer
       Timer0.get_current_time project_of game_of timer_of set_project_of
       set_game_of set_timer_of paused fst snd].
  destruct (pa =? 1);
    cbv [exec bind ret gets modify here in_timer project_of game_of timer_of
         set_project_of set_game_of set_timer_of fst snd begin_pause];
    destruct (Timer0.countdown_pause t); reflexivity.
Qed.

Lemma countdown_pause_fields t :
  let t' := exec Timer0.countdown_pause t in
  Timer0.clockTicks t' = Timer0.clockTicks t /\
  (Timer0.is_paused t = 0 ->
   Timer0.start_pause t' = Timer0.clockTicks t /\
   Timer0.total_time_paused t' = Timer0.total_time_paused t) /\
  (Timer0.is_paused t <> 0 ->
   Timer0.total_time_paused t' =
   uint32 (Timer0.total_time_paused t
           + uint32 (Timer0.clockTicks t - Timer0.start_pause t))).
Proof.
  destruct t as [ticks inited up fs sp total pt ip].
  unfold Timer0.countdown_pause, Timer0.get_current_time.
  TimerFacts.run_timer.
  destruct (ip =? 0) eqn:Hp; TimerFacts.run_timer.
  - apply Z.eqb_eq in Hp. repeat split; congruence.
  - apply Z.eqb_neq in Hp. repeat split; congruence.
Qed.

(** X13: a pause of [n] ticks, from the pause key to the pause key,
    leaves the game state alone, stores in [time_paused] exactly the
    [n] ms the pause took, adds the same [n] ms to the countdown's
    [total_time_paused], and leaves the countdown's played time as it
    was: both units measure one pause alike. *)
Theorem single_pause_is_measured w n :
  paused (project_of w) = 0 -> Timer0.is_paused (timer_of w) = 0 ->
  let tick := in_timer Timer0.ISR_TIMER0_COMPA in
  let w' := exec (pause_game ;; repeat_m n tick ;; pause_game) w in
  game_of w' = game_of w /\
  project_of w' =
    set_time_paused (uint32 (Z.of_nat n))
      (set_begin_pause (Timer0.clockTicks (timer_of w)) (project_of w)) /\
  Timer0.is_paused (timer_of w') = 0 /\
  Timer0.total_time_paused (timer_of w') =
    uint32 (Timer0.total_time_paused (timer_of w) + uint32 (Z.of_nat n)) /\
  Timer0.played_time (timer_of w') = Timer0.played_time (timer_of w).
Proof.
  intros Hp Hip. cbv zeta. rewrite !exec_bind_unit.
  set (w1 := exec pause_game w).
  set (w2 := exec (repeat_m n (in_timer Timer0.ISR_TIMER0_COMPA)) w1).
  assert (Hw2 : w2 = set_timer_of
            (exec (repeat_m n Timer0.ISR_TIMER0_COMPA) (timer_of w1)) w1)
    by apply exec_repeat_in_timer.
  assert (Hp1 : project_of w1 =
            set_paused 1 (set_begin_pause (Timer0.clockTicks (timer_of w))
                            (project_of w))).
  { unfold w1. rewrite pause_game_project, Hp. reflexivity. }
  assert (Ht1 : timer_of w1 = exec Timer0.countdown_pause (timer_of w))
    by apply pause_game_timer.
  destruct (countdown_pause_fields (timer_of w)) as (Hc1 & Hrun & _).
  destruct (Hrun Hip) as (Hsp1 & Htot1). clear Hrun.
  destruct (TimerExtras.toggle_flags (timer_of w)) as (Hip1 & _).
  rewrite Hip in Hip1. change (0 =? 0) with true in Hip1. cbv iota in Hip1.
  rewrite <- Ht1 in Hc1, Hsp1, Htot1, Hip1.
  destruct (TimerExtras.ticks_clock n (timer_of w1))
    as (Hc2 & Hsp2 & Htot2 & _ & Hip2).
  set (t2 := exec (repeat_m n Timer0.ISR_TIMER0_COMPA) (timer_of w1)) in *.
  assert (Hg2 : game_of w2 = game_of w).
  { rewrite Hw2. simpl. apply pause_game_game. }
  assert (Ht2 : timer_of w2 = t2) by (rewrite Hw2; reflexivity).
  assert (Hpr2 : project_of w2 = project_of w1) by (rewrite Hw2; reflexivity).
  destruct (countdown_pause_fields t2) as (_ & _ & Hres).
  destruct (TimerExtras.toggle_flags t2) as (Hip3 & _).
  rewrite Hip2, Hip1 in Hip3. change (1 =? 0) with false in Hip3.
  cbv iota in Hip3.
  split; [|split; [|split; [|split]]].
  - rewrite pause_game_game. exact Hg2.
  - rewrite pause_game_project. cbv zeta. rewrite Hpr2, Hp1, Ht2.
    destruct (project_of w) as [tp bp pa ct lm r0 r1 r2 v0 v1 lv su].
    simpl in Hp. subst pa.
    cbv [set_paused set_time_paused set_begin_pause time_paused begin_pause
         paused current_time last_move_time road0 road1 road2 river0 river1
         level speed_up_by].
    change (1 =? 1) with true. cbv iota. f_equal.
    apply TimerExtras.elapsed. rewrite <- Hc1. exact Hc2.
  - rewrite pause_game_timer, Ht2. exact Hip3.
  - rewrite pause_game_timer, Ht2, Hres by (rewrite Hip2, Hip1; discriminate).
    rewrite Htot2, Htot1, Hsp2, Hsp1. f_equal. f_equal.
    apply TimerExtras.elapsed. rewrite <- Hc1. exact Hc2.
  - rewrite pause_game_timer, Ht2.
    rewrite TimerFacts.countdown_pause_keeps_played_time.
    unfold t2. rewrite TimerExtras.ticks_while_paused
      by (rewrite Hip1; discriminate).
    rewrite Ht1. apply TimerFacts.countdown_pause_keeps_played_time.
Qed.

Lemma single_pause_is_measured_witness :
  let tick := in_timer Timer0.ISR_TIMER0_COMPA in
  let w' := exec (pause_game ;; repeat_m 600 tick ;; pause_game) fresh_game in
  (paused (project_of fresh_game) = 0 /\
   Timer0.is_paused (timer_of fresh_game) = 0) /\
  time_paused (project_of w') = 600.
Proof.
  intros tick w'.
  assert (Hp : paused (project_of fresh_game) = 0) by reflexivity.
  assert (Hip : Timer0.is_paused (timer_of fresh_game) = 0) by reflexivity.
  split; [split; assumption|].
  destruct (single_pause_is_measured fresh_game 600 Hp Hip) as (_ & H & _).
  fold tick in H. fold w' in H. rewrite H. reflexivity.
Defined.

(** ** The level-complete branch *)

Lemma level_complete_world w :
  let lv := uint32 (level (project_of w) + 1) in
  exec level_complete w =
  mk_world (exec (Game.initialise_level lv) (game_of w))
    (exec Timer0.init_countdown (timer_of w))
    (set_speed_up_by (uint16 (speed_up_by (project_of w) + 50))
       (set_level lv (project_of w))).
Proof.
  destruct w as [g t p]. unfold level_complete.
  cbv beta iota zeta delta
    [exec bind ret gets modify fst snd here in_timer in_game game_of timer_of
     project_of set_game_of set_timer_of set_project_of].
  destruct p as [tp bp pa ct lm r0 r1 r2 v0 v1 lv su].
  cbv beta iota zeta delta [level set_level].
  destruct (Game.initialise_level _ g) as [u g'].
  destruct (Timer0.init_countdown t) as [u' t'].
  reflexivity.
Qed.

Lemma initialise_level_frog lv g :
  let g' := exec (Game.initialise_level lv) g in
  Game.frog_row g' = 0 /\ Game.frog_column g' = 7 /\ Game.frog_dead g' = 0 /\
  Game.score g' = Game.score g /\
  Game.frog_lives g' = Game.frog_lives (exec Game.increment_lives g) /\
  Game.decrement g' = Game.decrement g.
Proof.
  destruct g.
  unfold Game.initialise_level, Game.reset_positions, Game.increment_lives,
    Game.put_frog_in_start_position.
  run_game; repeat split; reflexivity.
Qed.



(** ** The checks at the top of a loop turn *)

Section Stepping.
Context {S A B : Type}.

Lemma exec_bind (m : M S A) (k : A -> M S B) s :
  exec (bind m k) s = exec (k (eval m s)) (exec m s).
Proof. unfold exec, eval, bind. destruct (m s). reflexivity. Qed.

Lemma exec_ret (a : A) (s : S) : exec (ret a) s = s.
Proof. reflexivity. Qed.

Lemma exec_gets (f : S -> A) (s : S) : exec (gets f) s = s.
Proof. reflexivity. Qed.

Lemma eval_gets (f : S -> A) (s : S) : eval (gets f) s = f s.
Proof. reflexivity. Qed.

Lemma exec_when (b : bool) (m : M S unit) s :
  exec (when b m) s = if b then exec m s else s.
Proof. destruct b; reflexivity. Qed.

End Stepping.

Lemma exec_in_game {A} (m : Game.G A) w :
  exec (in_game m) w = set_game_of (exec m (game_of w)) w.
Proof. unfold exec, in_game. destruct (m (game_of w)); reflexivity. Qed.

Lemma eval_in_game {A} (m : Game.G A) w :
  eval (in_game m) w = eval m (game_of w).
Proof. unfold eval, in_game. destruct (m (game_of w)); reflexivity. Qed.

Lemma exec_in_timer' {A} (m : Timer0.T A) w :
  exec (in_timer m) w = set_timer_of (exec m (timer_of w)) w.
Proof. unfold exec, in_timer. destruct (m (timer_of w)); reflexivity. Qed.

Lemma eval_in_timer {A} (m : Timer0.T A) w :
  eval (in_timer m) w = eval m (timer_of w).
Proof. unfold eval, in_timer. destruct (m (timer_of w)); reflexivity. Qed.

Lemma exec_here {A} (m : M project A) w :
  exec (here m) w = set_project_of (exec m (project_of w)) w.
Proof. unfold exec, here. destruct (m (project_of w)); reflexivity. Qed.

Lemma eval_here {A} (m : M project A) w :
  eval (here m) w = eval m (project_of w).
Proof. unfold eval, here. destruct (m (project_of w)); reflexivity. Qed.

Lemma initialise_life_frog lv g :
  let g' := exec (Game.initialise_life lv) g in
  (Game.frog_row g', Game.frog_column g', Game.frog_dead g', Game.decrement g')
  = (0, 7, 0, 0) /\
  Game.frog_lives g' = Game.frog_lives g /\
  Game.riverbank_status g' = Game.riverbank_status g /\
  Game.score g' = Game.score g.
Proof.
  destruct g.
  unfold Game.initialise_life, Game.reset_positions,
    Game.put_frog_in_start_position.
  run_game; repeat split; reflexivity.
Qed.

Ltac world_step :=
  repeat (progress
    (rewrite ?exec_bind, ?exec_ret, ?exec_gets, ?eval_gets, ?exec_when,
       ?exec_in_game, ?eval_in_game, ?exec_in_timer', ?eval_in_timer,
       ?exec_here, ?eval_here;
     cbv beta;
     cbn [game_of timer_of project_of set_game_of set_timer_of
          set_project_of])).

Lemma life_and_level_checks_parts w :
  exec life_and_level_checks w =
  exec restart_check (exec time_and_level_check w).
Proof.
  change life_and_level_checks with (time_and_level_check ;; restart_check).
  apply exec_bind_unit.
Qed.

Lemma time_check_when_up w :
  Timer0.times_up (timer_of w) <> 0 ->
  let g1 := exec Game.decrement_lives (game_of w) in
  exec time_and_level_check w =
  if Game.frog_dead g1 =? 0
  then mk_world (exec (Game.initialise_life (level (project_of w))) g1)
         (exec Timer0.init_countdown (timer_of w)) (project_of w)
  else set_game_of g1 w.
Proof.
  intros Hup. apply Z.eqb_neq in Hup. destruct w as [g t p].
  cbn [game_of timer_of project_of] in *. cbv zeta.
  unfold time_and_level_check.
  set (dl := Game.decrement_lives). set (il := Game.initialise_life).
  set (ic := Timer0.init_countdown).
  world_step.
  change (eval Timer0.is_time_up t) with (Timer0.times_up t).
  rewrite Hup. cbn [negb]. world_step.
  change (eval Game.is_frog_dead (exec dl g)) with (Game.frog_dead (exec dl g)).
  destruct (Game.frog_dead (exec dl g) =? 0); world_step; reflexivity.
Qed.

Lemma time_check_when_running w :
  Timer0.times_up (timer_of w) = 0 ->
  let g := game_of w in
  exec time_and_level_check w =
  if (Game.frog_dead g =? 0) && (Game.riverbank_status g =? 0xFFFF)
  then exec level_complete w else w.
Proof.
  intros Hup. destruct w as [g t p].
  cbn [game_of timer_of project_of] in *. cbv zeta.
  unfold time_and_level_check.
  set (lc := level_complete).
  world_step.
  change (eval Timer0.is_time_up t) with (Timer0.times_up t).
  rewrite Hup. change (negb (0 =? 0)) with false. cbv iota. world_step.
  change (exec Timer0.is_time_up t) with t.
  change (exec Game.is_frog_dead g) with g.
  change (exec Game.is_riverbank_full g) with g.
  change (eval Game.is_frog_dead g) with (Game.frog_dead g).
  change (eval Game.is_riverbank_full g)
    with (if Game.riverbank_status g =? 0xFFFF then 1 else 0).
  destruct (Game.frog_dead g =? 0), (Game.riverbank_status g =? 0xFFFF);
    reflexivity.
Qed.

Lemma restart_check_cases w :
  let g := game_of w in
  exec restart_check w =
  if (Game.frog_dead g =? 0) && (Game.decrement g =? 0)
     && (Game.frog_row g =? Game.RIVERBANK_ROW)
  then mk_world (exec Game.put_frog_in_start_position g)
         (exec Timer0.init_countdown (timer_of w)) (project_of w)
  else if negb (Game.decrement g =? 0) && (Game.frog_dead g =? 0)
  then mk_world (exec (Game.initialise_life (level (project_of w))) g)
         (exec Timer0.init_countdown (timer_of w)) (project_of w)
  else w.
Proof.
  destruct w as [g t p].
  cbn [game_of timer_of project_of] in *. cbv zeta.
  unfold restart_check.
  set (pf := Game.put_frog_in_start_position).
  set (il := Game.initialise_life).
  set (ic := Timer0.init_countdown).
  world_step.
  change (exec Game.is_frog_dead g) with g.
  change (exec Game.is_decremented g) with g.
  change (exec Game.frog_has_reached_riverbank g) with g.
  change (eval Game.is_frog_dead g) with (Game.frog_dead g).
  change (eval Game.is_decremented g) with (Game.decrement g).
  change (eval Game.frog_has_reached_riverbank g)
    with (if Game.frog_row g =? Game.RIVERBANK_ROW then 1 else 0).
  destruct (Game.frog_dead g =? 0), (Game.decrement g =? 0),
    (Game.frog_row g =? Game.RIVERBANK_ROW);
    cbn [negb andb]; try change (negb (1 =? 0)) with true;
    try change (negb (0 =? 0)) with false; cbv iota;
    world_step; reflexivity.
Qed.

(** X15: when the countdown has run out, the checks at the top of a
    loop turn take exactly one life from a living frog and never start a
    new level in that turn, even with a full riverbank: the level, the
    speed-up, the riverbank and the score are as before.  With a life
    left the frog restarts at the start position with the decrement
    flag cleared and a fresh countdown; the last life leaves the frog
    dead where it stood and the countdown expired. *)
Theorem time_up_costs_one_life w :
  let g := game_of w in
  Timer0.times_up (timer_of w) <> 0 ->
  Game.frog_dead g = 0 ->
  1 <= Game.frog_lives g <= 4 ->
  let w' := exec life_and_level_checks w in
  let g' := game_of w' in
  Game.frog_lives g' = Game.frog_lives g - 1 /\
  Game.riverbank_status g' = Game.riverbank_status g /\
  Game.score g' = Game.score g /\
  project_of w' = project_of w /\
  (2 <= Game.frog_lives g ->
   (Game.frog_row g', Game.frog_column g', Game.frog_dead g',
    Game.decrement g') = (0, 7, 0, 0) /\
   timer_of w' = exec Timer0.init_countdown (timer_of w)) /\
  (Game.frog_lives g = 1 ->
   (Game.frog_row g', Game.frog_column g', Game.frog_dead g') =
   (Game.frog_row g, Game.frog_column g, 1) /\
   timer_of w' = timer_of w).
Proof.
  intros g Hup Hd Hl. cbv zeta.
  rewrite life_and_level_checks_parts, time_check_when_up by exact Hup.
  cbv zeta. fold g.
  pose proof (decrement_lives_dead g) as Hd1.
  pose proof (decrement_lives_lives g) as Hl1.
  destruct (decrement_lives_frame g)
    as (Hr1 & Hc1 & Hdc1 & _ & _ & _ & _ & _ & Hst1 & Hsc1).
  rewrite uint8_small in Hl1 by lia.
  set (g1 := exec Game.decrement_lives g) in *.
  destruct (Z.le_gt_cases 2 (Game.frog_lives g)) as [H2 | H1].
  - replace ((2 <=? Game.frog_lives g) && (Game.frog_lives g <=? 4))
      with true in Hd1 by (symmetry; apply andb_true_iff; lia).
    rewrite Hd in Hd1. rewrite Hd1. change (0 =? 0) with true. cbv iota.
    destruct (initialise_life_frog (level (project_of w)) g1)
      as (Hf & Hl2 & Hst2 & Hsc2).
    set (g2 := exec (Game.initialise_life (level (project_of w))) g1) in *.
    injection Hf as Hr2 Hc2 Hd2 Hdc2.
    rewrite restart_check_cases. cbv zeta. cbn [game_of timer_of project_of].
    rewrite Hd2, Hdc2, Hr2. change (0 =? Game.RIVERBANK_ROW) with false.
    change (0 =? 0) with true. cbn [negb andb]. cbn [game_of timer_of project_of].
    rewrite Hr2, Hc2, Hd2, Hdc2.
    repeat split; try congruence; lia.
  - assert (Hone : Game.frog_lives g = 1) by lia.
    replace ((2 <=? Game.frog_lives g) && (Game.frog_lives g <=? 4))
      with false in Hd1 by (symmetry; apply andb_false_iff; left;
                            apply Z.leb_gt; lia).
    rewrite Hd1. change (1 =? 0) with false. cbv iota.
    rewrite restart_check_cases. cbv zeta.
    destruct w as [g0 t p]. cbn [set_game_of game_of timer_of project_of].
    rewrite Hd1. change (1 =? 0) with false. cbn [negb andb].
    rewrite andb_false_r. cbn [set_game_of game_of timer_of project_of].
    rewrite Hr1, Hc1, Hd1.
    repeat split; try congruence; lia.
Qed.

Lemma time_up_costs_one_life_witness :
  (Timer0.times_up (timer_of time_ran_out) = 1 /\
   Game.frog_dead (game_of time_ran_out) = 0 /\
   Game.frog_lives (game_of time_ran_out) = 3) /\
  Game.frog_lives (game_of (exec life_and_level_checks time_ran_out)) = 2.
Proof.
  assert (Hup : Timer0.times_up (timer_of time_ran_out) = 1)
    by (vm_compute; reflexivity).
  assert (Hd : Game.frog_dead (game_of time_ran_out) = 0)
    by (vm_compute; reflexivity).
  assert (Hl : Game.frog_lives (game_of time_ran_out) = 3)
    by (vm_compute; reflexivity).
  split; [repeat split; assumption|].
  destruct (time_up_costs_one_life time_ran_out) as (H & _).
  - rewrite Hup. discriminate.
  - exact Hd.
  - rewrite Hl. lia.
  - rewrite H, Hl. reflexivity.
Defined.

(** X16: what the checks at the top of a loop turn do for a living frog
    while the countdown is running.  With a full riverbank (and no
    pending death) they are the level-complete branch and nothing more;
    otherwise a safe landing in row 7 puts the frog back to the start
    and restarts the countdown without touching lanes, lives or bank, a
    pending death restarts the life, and in every other case the whole
    program state is left as it is. *)
Theorem checks_while_time_is_running w :
  let g := game_of w in
  Timer0.times_up (timer_of w) = 0 ->
  Game.frog_dead g = 0 ->
  let w' := exec life_and_level_checks w in
  let restarted := exec Timer0.init_countdown (timer_of w) in
  (Game.riverbank_status g = 0xFFFF -> Game.decrement g = 0 ->
   w' = exec level_complete w) /\
  (Game.riverbank_status g <> 0xFFFF -> Game.decrement g = 0 ->
   Game.frog_row g = Game.RIVERBANK_ROW ->
   w' = mk_world
          (Game.set_frog_dead 0 (Game.set_frog_column 7 (Game.set_frog_row 0 g)))
          restarted (project_of w)) /\
  (Game.riverbank_status g <> 0xFFFF -> Game.decrement g <> 0 ->
   w' = mk_world (exec (Game.initialise_life (level (project_of w))) g)
          restarted (project_of w)) /\
  (Game.riverbank_status g <> 0xFFFF -> Game.decrement g = 0 ->
   Game.frog_row g <> Game.RIVERBANK_ROW ->
   w' = w).
Proof.
  intros g Hup Hd. cbv zeta.
  rewrite life_and_level_checks_parts, time_check_when_running by exact Hup.
  cbv zeta. fold g. rewrite Hd. change (0 =? 0) with true. cbn [andb].
  split; [|split; [|split]].
  - intros Hfull Hdcr. rewrite Hfull. change (0xFFFF =? 0xFFFF) with true.
    cbv iota. rewrite restart_check_cases. cbv zeta.
    rewrite level_complete_world. cbv zeta. cbn [game_of timer_of project_of].
    fold g.
    destruct (initialise_level_frog (uint32 (level (project_of w) + 1)) g)
      as (-> & _ & -> & _ & _ & ->).
    rewrite Hdcr. reflexivity.
  - intros Hfull Hdcr Hrow. apply Z.eqb_neq in Hfull. rewrite Hfull.
    rewrite restart_check_cases. cbv zeta. fold g.
    rewrite Hd, Hdcr, Hrow. reflexivity.
  - intros Hfull Hdcr. apply Z.eqb_neq in Hfull. rewrite Hfull.
    rewrite restart_check_cases. cbv zeta. fold g.
    apply Z.eqb_neq in Hdcr. rewrite Hd, Hdcr. reflexivity.
  - intros Hfull Hdcr Hrow. apply Z.eqb_neq in Hfull. rewrite Hfull.
    rewrite restart_check_cases. cbv zeta. fold g.
    apply Z.eqb_neq in Hrow. rewrite Hd, Hdcr, Hrow. reflexivity.
Qed.

Lemma checks_while_time_is_running_witness :
  (Timer0.times_up (timer_of fresh_game) = 0 /\
   Game.frog_dead (game_of fresh_game) = 0) /\
  exec life_and_level_checks fresh_game = fresh_game.
Proof.
  split; [split; reflexivity|].
  apply (checks_while_time_is_running fresh_game eq_refl eq_refl).
  - vm_compute. discriminate.
  - reflexivity.
  - vm_compute. discriminate.
Defined.

(** ** The score on the terminal *)

(** X19: [update_score] prints a score of [k] digits, up to four, at
    column 41 - [k], so that its last digit is in column 40 - except
    for the scores 10, 100 and 1000, which fall between its strict
    comparisons: for them, as for every score from 10000 on, the cursor
    is not moved and the number follows the text printed before. *)
Theorem score_column score :
  1 <= score ->
  let heading := [ClearTerminal; MoveCursor 30 2; PrintString "Score:"] in
  (forall k, 1 <= k <= 4 -> 10 ^ (k - 1) <= score < 10 ^ k ->
     score <> 10 -> score <> 100 -> score <> 1000 ->
     update_score score =
     heading ++ [MoveCursor (41 - k) 2; PrintNumber score]) /\
  (score = 10 \/ score = 100 \/ score = 1000 \/ 10000 <= score ->
     update_score score = heading ++ [PrintNumber score]).
Proof.
  intros Hs. cbv zeta. unfold update_score. split.
  - intros k Hk Hrange H10 H100 H1000.
    assert (k = 1 \/ k = 2 \/ k = 3 \/ k = 4) as [-> | [-> | [-> | ->]]] by lia;
      change (10 ^ (1 - 1)) with 1 in Hrange;
      change (10 ^ (2 - 1)) with 10 in Hrange;
      change (10 ^ (3 - 1)) with 100 in Hrange;
      change (10 ^ (4 - 1)) with 1000 in Hrange;
      change (10 ^ 1) with 10 in Hrange; change (10 ^ 2) with 100 in Hrange;
      change (10 ^ 3) with 1000 in Hrange;
      change (10 ^ 4) with 10000 in Hrange.
    + replace (score <? 10) with true by (symmetry; apply Z.ltb_lt; lia).
      reflexivity.
    + replace (score <? 10) with false by (symmetry; apply Z.ltb_ge; lia).
      replace (score >? 10) with true
        by (symmetry; rewrite Z.gtb_ltb; apply Z.ltb_lt; lia).
      replace (score <? 100) with true by (symmetry; apply Z.ltb_lt; lia).
      reflexivity.
    + replace (score <? 10) with false by (symmetry; apply Z.ltb_ge; lia).
      replace (score <? 100) with false by (symmetry; apply Z.ltb_ge; lia).
      replace (score >? 100) with true
        by (symmetry; rewrite Z.gtb_ltb; apply Z.ltb_lt; lia).
      replace (score <? 1000) with true by (symmetry; apply Z.ltb_lt; lia).
      rewrite andb_false_r. reflexivity.
    + replace (score <? 10) with false by (symmetry; apply Z.ltb_ge; lia).
      replace (score <? 100) with false by (symmetry; apply Z.ltb_ge; lia).
      replace (score <? 1000) with false by (symmetry; apply Z.ltb_ge; lia).
      replace (score >? 1000) with true
        by (symmetry; rewrite Z.gtb_ltb; apply Z.ltb_lt; lia).
      replace (score <? 10000) with true by (symmetry; apply Z.ltb_lt; lia).
      rewrite !andb_false_r. reflexivity.
  - intros [-> | [-> | [-> | Hbig]]]; try reflexivity.
    replace (score <? 10) with false by (symmetry; apply Z.ltb_ge; lia).
    replace (score <? 100) with false by (symmetry; apply Z.ltb_ge; lia).
    replace (score <? 1000) with false by (symmetry; apply Z.ltb_ge; lia).
    replace (score <? 10000) with false by (symmetry; apply Z.ltb_ge; lia).
    rewrite !andb_false_r. reflexivity.
Qed.

Lemma score_column_witness :
  1 <= 10 /\
  update_score 10 =
  [ClearTerminal; MoveCursor 30 2; PrintString "Score:"; PrintNumber 10].
Proof.
  assert (H : 1 <= 10) by lia.
  split; [exact H|].
  apply (proj2 (score_column 10 H)). left. reflexivity.
Defined.

End ProjectExtras.
